(** * Solana DEX engine: routing, order worker and WebSocket fan-out

    A shallow embedding of the backend of the order execution engine:
    - [services/dexRouter.ts]  (module [DexRouter]),
    - [services/websocket.ts]  (module [WebSocketManager]; the source of
      the manager follows the type declarations in [types/order.ts]),
    - [workers/orderWorker.ts] (module [OrderWorker]),
    with the type declarations of [types/order.ts].

    JavaScript numbers are rationals ([Q]).  The router is read twice:
    module [DexRouter] reads its arithmetic exactly, module [DexRouter64]
    rounds every operation to binary64 as JavaScript does (module
    [Binary64]) and carries the properties that the roundings decide.
    Every use of [Math.random()] is an explicit argument (a "draw"), so that
    each function is a pure function of its arguments and of its draws.
    Console logging and simulated latency have no influence on the results
    and are left out (the draw consumed by a latency computation is kept). *)

From Stdlib Require Import ZArith QArith Qpower Qround Qabs Qminmax Lqa Lia.
From Stdlib Require Import String Ascii DecimalString List Bool.
From stdpp Require Import gmap strings list fin_maps.

Local Open Scope Q_scope.

(** ** JavaScript numbers and strings *)

Module Js.

(** [a < b] and [a > b] on numbers, as booleans. *)
Definition ltb (a b : Q) : bool := negb (Qle_bool b a).
Definition gtb (a b : Q) : bool := negb (Qle_bool a b).
Definition geb (a b : Q) : bool := Qle_bool b a.

(** A value is falsy when it is [undefined], [0] or the empty string. *)
Definition truthy_num (x : Q) : bool := negb (Qeq_bool x 0).
Definition truthy_str (s : string) : bool := negb (String.eqb s "").

(** [table[key] || dflt] for a numeric table. *)
Definition or_default (o : option Q) (dflt : Q) : Q :=
  match o with
  | Some v => if truthy_num v then v else dflt
  | None => dflt
  end.

(** [x.toFixed(d)]: the integer [n] for which [n / 10^d] is closest to the
    magnitude of [x], the larger one on a tie; the sign is printed apart. *)
Definition pow10 (d : nat) : Z := (10 ^ Z.of_nat d)%Z.

Definition toFixed_units (d : nat) (x : Q) : Z :=
  Qfloor (Qabs x * inject_Z (pow10 d) + (1 # 2)).

(** [Number(x.toFixed(d))] *)
Definition Number_toFixed (d : nat) (x : Q) : Q :=
  let n := toFixed_units d x in
  Qmake (if ltb x 0 then (- n)%Z else n) (Z.to_pos (pow10 d)).

Definition digits (n : Z) : string :=
  NilZero.string_of_uint (N.to_uint (Z.to_N n)).

Fixpoint zeros (k : nat) : string :=
  match k with
  | O => EmptyString
  | S k' => String "0" (zeros k')
  end.

(** the last [d] digits of [n], padded with zeros on the left *)
Definition fraction_digits (d : nat) (n : Z) : string :=
  let s := digits (n mod pow10 d) in
  String.append (zeros (d - String.length s)) s.

(** The string [x.toFixed(d)], for [|x| < 10^21] (beyond that JavaScript
    switches to exponent notation; no price or percentage gets there). *)
Definition toFixed (d : nat) (x : Q) : string :=
  let n := toFixed_units d x in
  let body :=
    match d with
    | O => digits n
    | S _ => String.append (digits (n / pow10 d))
               (String.append "." (fraction_digits d n))
    end in
  if ltb x 0 then String.append "-" body else body.

(** [s.includes(sub)] *)
Fixpoint includes (s sub : string) : bool :=
  String.prefix sub s ||
  match s with
  | EmptyString => false
  | String _ s' => includes s' sub
  end.

(** The property names that every object literal inherits from
    [Object.prototype]; a table answers them with a function or an object,
    never with a number or a string of its own. *)
Definition Object_prototype : list string :=
  [ "constructor"; "__defineGetter__"; "__defineSetter__"; "hasOwnProperty";
    "__lookupGetter__"; "__lookupSetter__"; "isPrototypeOf";
    "propertyIsEnumerable"; "toString"; "valueOf"; "__proto__";
    "toLocaleString" ]%string.

Definition inherited (key : string) : bool :=
  existsb (String.eqb key) Object_prototype.

(** [s.slice(0, k)] *)
Definition slice0 (k : nat) (s : string) : string := String.substring 0 k s.

End Js.

(** ** types/order.ts *)

Definition SOL : string := "So11111111111111111111111111111111111111112".
Definition USDC : string := "EPjFWdd5AufqSSqeM2qN1xzybapC8G4wEGGkZwyTDt1v".
Definition BONK : string := "DezXAZ8z7PnrnRJjz3wXBoRgixCa6xjnB7YaB1pPB263".
Definition RAY : string := "4k3Dyjzvzp8eMZWUXbBCjEvwSkkk59S5iCNLY3QrkX6R".

Inductive OrderStatusType :=
| pending | routing | building | submitted | confirmed | failed.

Inductive Dex := Raydium | Meteora.

Definition dex_name (d : Dex) : string :=
  match d with Raydium => "Raydium" | Meteora => "Meteora" end.

(** [OrderStatusData]: every field is optional. *)
Record OrderStatusData := {
  data_dex : option Dex;
  raydiumPrice : option Q;
  meteoraPrice : option Q;
  data_txHash : option string;
  data_executedPrice : option Q;
  data_error : option string
}.

(** [OrderStatus]; the ISO timestamp is the reading of a clock. *)
Record OrderStatus := {
  orderId : string;
  status : OrderStatusType;
  data : option OrderStatusData;
  timestamp : nat
}.

Record DexQuote := {
  dex : Dex;
  price : Q;
  fee : Q;
  liquidityScore : Q
}.

Record RoutingResult := {
  selectedDex : Dex;
  raydiumQuote : DexQuote;
  meteoraQuote : DexQuote;
  reason : string
}.

Record SwapResult := {
  success : bool;
  txHash : string;
  executedPrice : Q;
  swap_dex : Dex;
  slippage : Q
}.

Record OrderJobData := {
  job_orderId : string;
  tokenIn : string;
  tokenOut : string;
  amount : Q
}.

(** [BASE_PRICES], a table from token address to its price in USDC.  The
    table is read at token addresses (32 to 50 characters at the ingress),
    never at a property name inherited from [Object.prototype]. *)
Definition BASE_PRICES (address : string) : option Q :=
  if String.eqb address SOL then Some 100.0
  else if String.eqb address USDC then Some 1.0
  else if String.eqb address BONK then Some 0.00001
  else if String.eqb address RAY then Some 0.5
  else None.

(** ** services/dexRouter.ts *)

Module DexRouter.

Definition getVariedPrice (basePrice minMultiplier maxMultiplier u : Q) : Q :=
  let variance := minMultiplier + u * (maxMultiplier - minMultiplier) in
  basePrice * variance.

Definition getBaseExchangeRate (tokenIn tokenOut : string) : Q :=
  let priceIn := Js.or_default (BASE_PRICES tokenIn) 1.0 in
  let priceOut := Js.or_default (BASE_PRICES tokenOut) 1.0 in
  priceIn / priceOut.

(** The three [Math.random()] results one quote request consumes. *)
Record QuoteDraws := {
  u_latency : Q;
  u_price : Q;
  u_liquidity : Q
}.

Definition getRaydiumQuote (tokenIn tokenOut : string) (amount : Q)
    (r : QuoteDraws) : DexQuote :=
  let baseRate := getBaseExchangeRate tokenIn tokenOut in
  let price := getVariedPrice baseRate 0.98 1.02 (u_price r) in
  let fee := 0.003 in
  let isSolPair := Js.includes tokenIn "So11" || Js.includes tokenOut "So11" in
  let liquidityScore :=
    if isSolPair then 0.85 + u_liquidity r * 0.1
    else 0.7 + u_liquidity r * 0.15 in
  {| dex := Raydium;
     price := Js.Number_toFixed 8 price;
     fee := fee;
     liquidityScore := Js.Number_toFixed 3 liquidityScore |}.

Definition getMeteorQuote (tokenIn tokenOut : string) (amount : Q)
    (r : QuoteDraws) : DexQuote :=
  let baseRate := getBaseExchangeRate tokenIn tokenOut in
  let price := getVariedPrice baseRate 0.97 1.02 (u_price r) in
  let fee := 0.002 in
  let liquidityScore := 0.65 + u_liquidity r * 0.2 in
  {| dex := Meteora;
     price := Js.Number_toFixed 8 price;
     fee := fee;
     liquidityScore := Js.Number_toFixed 3 liquidityScore |}.

(** [price * (1 - fee)] *)
Definition effective (q : DexQuote) : Q := price q * (1 - fee q).

(** [Math.abs(r - m) / Math.max(r, m) * 100].  A division by zero gives
    [Infinity] or [NaN] in JavaScript, here [None]; both compare false
    with [< 1.0]. *)
Definition priceDiffPercent (raydiumEffective meteoraEffective : Q) : option Q :=
  let larger := Qmax raydiumEffective meteoraEffective in
  if Qeq_bool larger 0 then None
  else Some (Qabs (raydiumEffective - meteoraEffective) / larger * 100).

Definition lt_1 (p : option Q) : bool :=
  match p with
  | Some x => Js.ltb x 1.0
  | None => false
  end.

(** [(score * 100).toFixed(1)] followed by the percent sign *)
Definition percent (score : Q) : string :=
  String.append (Js.toFixed 1 (score * 100)) "%".

Definition liquidityReason (winner : Dex) (winnerScore otherScore : Q) : string :=
  String.append "Large order - "
    (String.append (dex_name winner)
      (String.append " has better liquidity ("
        (String.append (percent winnerScore)
          (String.append " vs "
            (String.append (percent otherScore) ") with similar price"))))).

Definition bestPriceReason (selected : Dex)
    (raydiumEffective meteoraEffective : Q) : string :=
  String.append "Best effective price: "
    (String.append (dex_name selected)
      (String.append " ("
        (String.append
          (match selected with
           | Raydium => Js.toFixed 6 raydiumEffective
           | Meteora => Js.toFixed 6 meteoraEffective
           end) ")"))).

Definition bestPrice (raydiumEffective meteoraEffective : Q) : Dex * string :=
  let selectedDex :=
    if Js.geb raydiumEffective meteoraEffective then Raydium else Meteora in
  (selectedDex, bestPriceReason selectedDex raydiumEffective meteoraEffective).

(** The decision of [compareAndRoute] once both quotes have arrived. *)
Definition selectRoute (amount : Q) (raydiumQuote meteoraQuote : DexQuote)
    : Dex * string :=
  let raydiumEffective := effective raydiumQuote in
  let meteoraEffective := effective meteoraQuote in
  let isLargeOrder := Js.gtb amount 100 in
  let liquidityThreshold := 0.8 in
  if isLargeOrder then
    let priceDiffPercent := priceDiffPercent raydiumEffective meteoraEffective in
    if lt_1 priceDiffPercent
       && Js.gtb (liquidityScore raydiumQuote) liquidityThreshold
       && Js.gtb (liquidityScore raydiumQuote) (liquidityScore meteoraQuote)
    then (Raydium,
          liquidityReason Raydium (liquidityScore raydiumQuote)
            (liquidityScore meteoraQuote))
    else if lt_1 priceDiffPercent
       && Js.gtb (liquidityScore meteoraQuote) liquidityThreshold
       && Js.gtb (liquidityScore meteoraQuote) (liquidityScore raydiumQuote)
    then (Meteora,
          liquidityReason Meteora (liquidityScore meteoraQuote)
            (liquidityScore raydiumQuote))
    else bestPrice raydiumEffective meteoraEffective
  else bestPrice raydiumEffective meteoraEffective.

(** The two quote requests run under [Promise.all]; each has its own draws. *)
Definition compareAndRoute (tokenIn tokenOut : string) (amount : Q)
    (dr dm : QuoteDraws) : RoutingResult :=
  let raydiumQuote := getRaydiumQuote tokenIn tokenOut amount dr in
  let meteoraQuote := getMeteorQuote tokenIn tokenOut amount dm in
  let '(selectedDex, reason) := selectRoute amount raydiumQuote meteoraQuote in
  {| selectedDex := selectedDex;
     raydiumQuote := raydiumQuote;
     meteoraQuote := meteoraQuote;
     reason := reason |}.

(** What one [executeSwap] call takes from outside: three [Math.random()]
    results and the identifier returned by [nanoid(44)]. *)
Record SwapDraws := {
  u_time : Q;
  u_slippage : Q;
  u_success : Q;
  nanoid44 : string
}.

(** [dex.toLowerCase().slice(0, 3)] *)
Definition dex_tag (d : Dex) : string :=
  Js.slice0 3 (match d with Raydium => "raydium" | Meteora => "meteora" end).

Definition executeSwap (tokenIn tokenOut : string) (amount : Q) (dex : Dex)
    (quotedPrice : Q) (r : SwapDraws) : SwapResult :=
  let slippage := - 0.005 + u_slippage r * 0.007 in
  let executedPrice := quotedPrice * (1 + slippage) in
  let txHash := String.append (dex_tag dex) (nanoid44 r) in
  let success := Js.gtb (u_success r) 0.05 in
  {| success := success;
     txHash := txHash;
     executedPrice := Js.Number_toFixed 8 executedPrice;
     swap_dex := dex;
     slippage := Js.Number_toFixed 6 slippage |}.

End DexRouter.

(** ** JavaScript numbers as binary64 values *)

(** A finite binary64 value is a rational [m * 2^e] with [|m| < 2^53] and
    [e >= -1074].  An arithmetic operation of JavaScript returns the
    binary64 value that is nearest to the exact result, the one with the
    even significand on a tie; a decimal literal of the source denotes the
    binary64 value nearest to it.  [Infinity] and [NaN] have no value here:
    results of magnitude [2^1024] and more do not arise from the numbers
    that the properties range over. *)
Module Binary64.

Definition pow2 (e : Z) : Q := 2 ^ e.

(** The integer [k] with [2^k <= x < 2^(k+1)], for positive [x]. *)
Definition ilog2 (x : Q) : Z :=
  let k := (Z.log2 (Qnum x) - Z.log2 (Zpos (Qden x)))%Z in
  if Qle_bool (pow2 k) x then k else (k - 1)%Z.

(** The nearest integer, the even one on a tie. *)
Definition nearest_even (y : Q) : Z :=
  let f := Qfloor y in
  match Qcompare (y - inject_Z f) (1 # 2) with
  | Lt => f
  | Gt => (f + 1)%Z
  | Eq => if Z.even f then f else (f + 1)%Z
  end.

(** The exponent of the last place of [x]: 53 significant bits, and no
    place below [2^-1074]. *)
Definition exponent (x : Q) : Z := Z.max (ilog2 (Qabs x) - 52) (-1074).

(** The binary64 value nearest to [x], in lowest terms. *)
Definition round (x : Q) : Q :=
  if Qeq_bool x 0 then 0
  else
    let e := exponent x in
    Qred (inject_Z (nearest_even (x / pow2 e)) * pow2 e).

(** A finite binary64 value: a significand of at most 53 bits at an
    exponent that is not below [-1074]. *)
Definition is_binary64 (x : Q) : Prop :=
  exists m e : Z,
    (Z.abs m < 2 ^ 53)%Z /\ (-1074 <= e)%Z /\ x == inject_Z m * pow2 e.

(** The relative error of a rounding, [2^-53], and its absolute error
    below the normal range, [2^-1075]. *)
Definition eps : Q := 1 # 9007199254740992.
Definition eta : Q := pow2 (-1075).

(** [a + b], [a - b], [a * b] and [a / b] *)
Definition add (a b : Q) : Q := round (a + b).
Definition sub (a b : Q) : Q := round (a - b).
Definition mul (a b : Q) : Q := round (a * b).
Definition div (a b : Q) : Q := round (a / b).

(** [Number(x.toFixed(d))]: [toFixed] reads the exact value of [x], and
    [Number] returns the binary64 value nearest to the decimal. *)
Definition Number_toFixed (d : nat) (x : Q) : Q := round (Js.Number_toFixed d x).

End Binary64.

(** [BASE_PRICES] with its literals read as binary64 values. *)
Definition BASE_PRICES64 (address : string) : option Q :=
  option_map Binary64.round (BASE_PRICES address).

(** ** services/dexRouter.ts in binary64 *)

(** The functions of [DexRouter] once more, with every operation rounded
    as JavaScript rounds it.  Comparisons, [Math.abs] and [Math.max] are
    exact on binary64 values. *)
Module DexRouter64.
Import Binary64.

Definition getVariedPrice (basePrice minMultiplier maxMultiplier u : Q) : Q :=
  let variance := add minMultiplier (mul u (sub maxMultiplier minMultiplier)) in
  mul basePrice variance.

Definition getBaseExchangeRate (tokenIn tokenOut : string) : Q :=
  let priceIn := Js.or_default (BASE_PRICES64 tokenIn) 1 in
  let priceOut := Js.or_default (BASE_PRICES64 tokenOut) 1 in
  div priceIn priceOut.

Definition getRaydiumQuote (tokenIn tokenOut : string) (amount : Q)
    (r : DexRouter.QuoteDraws) : DexQuote :=
  let baseRate := getBaseExchangeRate tokenIn tokenOut in
  let price :=
    getVariedPrice baseRate (round 0.98) (round 1.02) (DexRouter.u_price r) in
  let fee := round 0.003 in
  let isSolPair := Js.includes tokenIn "So11" || Js.includes tokenOut "So11" in
  let liquidityScore :=
    if isSolPair
    then add (round 0.85) (mul (DexRouter.u_liquidity r) (round 0.1))
    else add (round 0.7) (mul (DexRouter.u_liquidity r) (round 0.15)) in
  {| dex := Raydium;
     price := Number_toFixed 8 price;
     fee := fee;
     liquidityScore := Number_toFixed 3 liquidityScore |}.

Definition getMeteorQuote (tokenIn tokenOut : string) (amount : Q)
    (r : DexRouter.QuoteDraws) : DexQuote :=
  let baseRate := getBaseExchangeRate tokenIn tokenOut in
  let price :=
    getVariedPrice baseRate (round 0.97) (round 1.02) (DexRouter.u_price r) in
  let fee := round 0.002 in
  let liquidityScore :=
    add (round 0.65) (mul (DexRouter.u_liquidity r) (round 0.2)) in
  {| dex := Meteora;
     price := Number_toFixed 8 price;
     fee := fee;
     liquidityScore := Number_toFixed 3 liquidityScore |}.

(** [price * (1 - fee)] *)
Definition effective (q : DexQuote) : Q := mul (price q) (sub 1 (fee q)).

(** [Math.abs(r - m) / Math.max(r, m) * 100]; [None] for the [Infinity] or
    [NaN] of a division by zero, which compare false with [< 1.0]. *)
Definition priceDiffPercent (raydiumEffective meteoraEffective : Q) : option Q :=
  let larger := Qmax raydiumEffective meteoraEffective in
  if Qeq_bool larger 0 then None
  else Some (mul (div (Qabs (sub raydiumEffective meteoraEffective)) larger) 100).

(** [(score * 100).toFixed(1)] followed by the percent sign *)
Definition percent (score : Q) : string :=
  String.append (Js.toFixed 1 (mul score 100)) "%".

Definition liquidityReason (winner : Dex) (winnerScore otherScore : Q) : string :=
  String.append "Large order - "
    (String.append (dex_name winner)
      (String.append " has better liquidity ("
        (String.append (percent winnerScore)
          (String.append " vs "
            (String.append (percent otherScore) ") with similar price"))))).

(** The decision of [compareAndRoute] once both quotes have arrived. *)
Definition selectRoute (amount : Q) (raydiumQuote meteoraQuote : DexQuote)
    : Dex * string :=
  let raydiumEffective := effective raydiumQuote in
  let meteoraEffective := effective meteoraQuote in
  let isLargeOrder := Js.gtb amount 100 in
  let liquidityThreshold := round 0.8 in
  if isLargeOrder then
    let priceDiffPercent := priceDiffPercent raydiumEffective meteoraEffective in
    if DexRouter.lt_1 priceDiffPercent
       && Js.gtb (liquidityScore raydiumQuote) liquidityThreshold
       && Js.gtb (liquidityScore raydiumQuote) (liquidityScore meteoraQuote)
    then (Raydium,
          liquidityReason Raydium (liquidityScore raydiumQuote)
            (liquidityScore meteoraQuote))
    else if DexRouter.lt_1 priceDiffPercent
       && Js.gtb (liquidityScore meteoraQuote) liquidityThreshold
       && Js.gtb (liquidityScore meteoraQuote) (liquidityScore raydiumQuote)
    then (Meteora,
          liquidityReason Meteora (liquidityScore meteoraQuote)
            (liquidityScore raydiumQuote))
    else DexRouter.bestPrice raydiumEffective meteoraEffective
  else DexRouter.bestPrice raydiumEffective meteoraEffective.

Definition compareAndRoute (tokenIn tokenOut : string) (amount : Q)
    (dr dm : DexRouter.QuoteDraws) : RoutingResult :=
  let raydiumQuote := getRaydiumQuote tokenIn tokenOut amount dr in
  let meteoraQuote := getMeteorQuote tokenIn tokenOut amount dm in
  let '(selectedDex, reason) := selectRoute amount raydiumQuote meteoraQuote in
  {| selectedDex := selectedDex;
     raydiumQuote := raydiumQuote;
     meteoraQuote := meteoraQuote;
     reason := reason |}.

Definition executeSwap (tokenIn tokenOut : string) (amount : Q) (dex : Dex)
    (quotedPrice : Q) (r : DexRouter.SwapDraws) : SwapResult :=
  let slippage :=
    add (round (- 0.005)) (mul (DexRouter.u_slippage r) (round 0.007)) in
  let executedPrice := mul quotedPrice (add 1 slippage) in
  let txHash := String.append (DexRouter.dex_tag dex) (DexRouter.nanoid44 r) in
  let success := Js.gtb (DexRouter.u_success r) (round 0.05) in
  {| success := success;
     txHash := txHash;
     executedPrice := Number_toFixed 8 executedPrice;
     swap_dex := dex;
     slippage := Number_toFixed 6 slippage |}.

End DexRouter64.

(** ** services/websocket.ts (class [WebSocketManager]) *)

Module WebSocketManager.

(** A [WebSocket] object is identified by a number.  Its [readyState] and
    the fact that its [send] raises belong to the socket, not to the manager:
    they are read from [sock] when a message is broadcast. *)
Record Socket := {
  readyState : nat;
  send_raises : bool
}.

Record t := {
  rooms : gmap string (gset nat);
  allConnections : gset nat
}.

Definition empty : t := {| rooms := ∅; allConnections := ∅ |}.

(** The [close] and [error] listeners that [joinRoom] installs on the socket
    call [leaveRoom orderId ws] when the socket fires them. *)
Definition joinRoom (orderId : string) (ws : nat) (m : t) : t :=
  let rooms1 :=
    match rooms m !! orderId with
    | Some _ => rooms m
    | None => <[orderId := ∅]> (rooms m)
    end in
  let room := default ∅ (rooms1 !! orderId) in
  {| rooms := <[orderId := room ∪ {[ws]}]> rooms1;
     allConnections := allConnections m ∪ {[ws]} |}.

Definition leaveRoom (orderId : string) (ws : nat) (m : t) : t :=
  let rooms' :=
    match rooms m !! orderId with
    | Some room =>
        let room' := room ∖ {[ws]} in
        if decide (size room' = 0%nat) then delete orderId (rooms m)
        else <[orderId := room']> (rooms m)
    | None => rooms m
    end in
  {| rooms := rooms'; allConnections := allConnections m ∖ {[ws]} |}.

(** The variables of the loop of [broadcast]; [wire] collects the frames
    handed to [ws.send]. *)
Record LoopState := {
  room : gset nat;
  conns : gset nat;
  sentCount : nat;
  failedCount : nat;
  wire : list (nat * OrderStatus)
}.

(** The body of [for (const ws of room)]: deleting the element under the
    cursor does not disturb the iteration over a JavaScript [Set]. *)
Definition visit (sock : nat -> Socket) (message : OrderStatus)
    (s : LoopState) (ws : nat) : LoopState :=
  if Nat.eqb (readyState (sock ws)) 1 then
    if send_raises (sock ws) then
      {| room := room s ∖ {[ws]}; conns := conns s ∖ {[ws]};
         sentCount := sentCount s; failedCount := S (failedCount s);
         wire := wire s |}
    else
      {| room := room s; conns := conns s;
         sentCount := S (sentCount s); failedCount := failedCount s;
         wire := wire s ++ [(ws, message)] |}
  else
    {| room := room s ∖ {[ws]}; conns := conns s ∖ {[ws]};
       sentCount := sentCount s; failedCount := S (failedCount s);
       wire := wire s |}.

(** [broadcast] returns the manager it leaves and the frames it sent. *)
Definition broadcast (sock : nat -> Socket) (orderId : string)
    (message : OrderStatus) (m : t) : t * list (nat * OrderStatus) :=
  match rooms m !! orderId with
  | None => (m, [])
  | Some r =>
      if decide (size r = 0%nat) then (m, [])
      else
        let s0 := {| room := r; conns := allConnections m;
                     sentCount := 0; failedCount := 0; wire := [] |} in
        let s := fold_left (visit sock message) (elements r) s0 in
        ({| rooms := <[orderId := room s]> (rooms m);
            allConnections := conns s |}, wire s)
  end.

Definition getRoomCount (m : t) : nat := size (rooms m).

Definition getConnectionCount (m : t) : nat := size (allConnections m).

Definition getRoomClientCount (orderId : string) (m : t) : nat :=
  match rooms m !! orderId with
  | Some r => size r
  | None => 0
  end.

Definition createStatusMessage (orderId : string) (status : OrderStatusType)
    (data : option OrderStatusData) (now : nat) : OrderStatus :=
  {| orderId := orderId; status := status; data := data; timestamp := now |}.

(** [cleanup] returns the cleared manager and the sockets it closed
    (with code 1000); an error raised by [close] is ignored. *)
Definition cleanup (m : t) : t * list nat :=
  (empty, elements (allConnections m)).

(** The operations that change the manager. *)
Inductive Op :=
| JoinRoom (orderId : string) (ws : nat)
| LeaveRoom (orderId : string) (ws : nat)
| BroadcastTo (orderId : string) (message : OrderStatus)
| Cleanup.

Definition apply (sock : nat -> Socket) (op : Op) (m : t) : t :=
  match op with
  | JoinRoom o ws => joinRoom o ws m
  | LeaveRoom o ws => leaveRoom o ws m
  | BroadcastTo o msg => fst (broadcast sock o msg m)
  | Cleanup => fst (cleanup m)
  end.

(** Every handle in a room is in the global connection set. *)
Definition rooms_tracked (m : t) : Prop :=
  ∀ (o : string) (r : gset nat) (ws : nat),
    rooms m !! o = Some r → ws ∈ r → ws ∈ allConnections m.

(** [ws] is in no room other than [o]. *)
Definition only_in (o : string) (ws : nat) (m : t) : Prop :=
  ∀ (o' : string) (r : gset nat),
    rooms m !! o' = Some r → ws ∈ r → o' = o.

(** A socket is unreachable when it is not open or its [send] raises. *)
Definition unreachable (sock : nat -> Socket) (ws : nat) : bool :=
  negb (Nat.eqb (readyState (sock ws)) 1) || send_raises (sock ws).

(** The condition under which an operation keeps [rooms_tracked]: a handle
    that the operation drops from the global set is in no other room.
    [leaveRoom] drops its handle; [broadcast] drops the members of the room
    that are unreachable. *)
Definition one_room_per_handle (sock : nat -> Socket) (op : Op) (m : t) : Prop :=
  match op with
  | LeaveRoom o ws => only_in o ws m
  | BroadcastTo o _ =>
      ∀ r ws, rooms m !! o = Some r → ws ∈ r → unreachable sock ws = true →
        only_in o ws m
  | JoinRoom _ _ | Cleanup => True
  end.

End WebSocketManager.

(** ** workers/orderWorker.ts *)

Module OrderWorker.

(** What a [catch] clause can receive: an [Error] object with its message,
    or a value that is not an [Error]. *)
Inductive Thrown :=
| ErrorObject (message : string)
| OtherValue.

(** The optional [data] argument of [updateOrderStatus]. *)
Record DbData := {
  db_dex : option Dex;
  db_txHash : option string;
  db_price : option Q;
  db_error : option string
}.

(** The [data] object handed to [prisma.order.update]. *)
Record DbUpdate := {
  upd_status : OrderStatusType;
  upd_dex : option Dex;
  upd_txHash : option string;
  upd_price : option Q;
  upd_error : option string
}.

Inductive Event :=
| Persisted (orderId : string) (u : DbUpdate)
| Broadcast (orderId : string) (message : OrderStatus).

(** The surroundings of one attempt.  [store_outcomes] gives the outcome of
    the coming calls of [prisma.order.update], in order: [None] when the
    call resolves, [Some e] when it rejects with [e]; past the end of the
    list every call resolves. *)
Record World := {
  store_outcomes : list (option Thrown);
  clock : nat;
  wsManager : WebSocketManager.t;
  sockets : nat → WebSocketManager.Socket;
  wire : list (nat * OrderStatus)
}.

Inductive Outcome (A : Type) :=
| Returned (a : A)
| Raised (e : Thrown).

Arguments Returned {A} a.
Arguments Raised {A} e.

(** An asynchronous computation: from a world to its outcome, the world it
    leaves and the events it produced, oldest first. *)
Definition M (A : Type) : Type := World → Outcome A * World * list Event.

Definition ret {A} (a : A) : M A := fun w => (Returned a, w, []).

Definition throw {A} (e : Thrown) : M A := fun w => (Raised e, w, []).

Definition bind {A B} (m : M A) (f : A → M B) : M B :=
  fun w =>
    match m w with
    | (Returned a, w1, l1) =>
        let '(r, w2, l2) := f a w1 in (r, w2, l1 ++ l2)
    | (Raised e, w1, l1) => (Raised e, w1, l1)
    end.

Definition try_catch {A} (m : M A) (handler : Thrown → M A) : M A :=
  fun w =>
    match m w with
    | (Returned a, w1, l1) => (Returned a, w1, l1)
    | (Raised e, w1, l1) =>
        let '(r, w2, l2) := handler e w1 in (r, w2, l1 ++ l2)
    end.

Notation "x <- m ;; k" := (bind m (fun x => k))
  (at level 100, m at next level, right associativity).
Notation "m ;; k" := (bind m (fun _ => k))
  (at level 100, right associativity).

(** [...(data?.f && { f: data.f })]: the field is written when it is truthy. *)
Definition spread_str (o : option string) : option string :=
  match o with
  | Some s => if Js.truthy_str s then Some s else None
  | None => None
  end.

Definition spread_num (o : option Q) : option Q :=
  match o with
  | Some x => if Js.truthy_num x then Some x else None
  | None => None
  end.

Definition update_of (status : OrderStatusType) (data : option DbData) : DbUpdate :=
  {| upd_status := status;
     upd_dex := d ← data; db_dex d;
     upd_txHash := spread_str (d ← data; db_txHash d);
     upd_price := spread_num (d ← data; db_price d);
     upd_error := spread_str (d ← data; db_error d) |}.

Definition set_store (w : World) (rest : list (option Thrown)) : World :=
  {| store_outcomes := rest; clock := clock w; wsManager := wsManager w;
     sockets := sockets w; wire := wire w |}.

(** [await prisma.order.update({ where: { id: orderId }, data })] *)
Definition prisma_order_update (orderId : string) (u : DbUpdate) : M unit :=
  fun w =>
    match store_outcomes w with
    | [] => (Returned tt, w, [Persisted orderId u])
    | None :: rest => (Returned tt, set_store w rest, [Persisted orderId u])
    | Some e :: rest => (Raised e, set_store w rest, [])
    end.

(** [new Date().toISOString()] *)
Definition now : M nat :=
  fun w =>
    (Returned (clock w),
     {| store_outcomes := store_outcomes w; clock := S (clock w);
        wsManager := wsManager w; sockets := sockets w; wire := wire w |},
     []).

(** [wsManager.broadcast(orderId, message)] on the shared manager. *)
Definition wsManager_broadcast (orderId : string) (message : OrderStatus) : M unit :=
  fun w =>
    let sent :=
      WebSocketManager.broadcast (sockets w) orderId message (wsManager w) in
    (Returned tt,
     {| store_outcomes := store_outcomes w; clock := clock w;
        wsManager := fst sent; sockets := sockets w;
        wire := wire w ++ snd sent |},
     [Broadcast orderId message]).

Definition updateOrderStatus (orderId : string) (status : OrderStatusType)
    (data : option DbData) (wsData : option OrderStatusData) : M unit :=
  prisma_order_update orderId (update_of status data) ;;
  t <- now ;;
  let message := WebSocketManager.createStatusMessage orderId status wsData t in
  wsManager_broadcast orderId message.

(** A job as the queue delivers it: [job.data], [job.attemptsMade] and
    [job.opts.attempts]. *)
Record Job := {
  job_data : OrderJobData;
  attemptsMade : nat;
  opts_attempts : option nat
}.

(** [job.opts.attempts || 3] *)
Definition maxAttempts (job : Job) : nat :=
  match opts_attempts job with
  | Some (S n) => S n
  | Some O | None => 3
  end.

(** The draws of one attempt. *)
Record AttemptDraws := {
  raydium_draws : DexRouter.QuoteDraws;
  meteora_draws : DexRouter.QuoteDraws;
  swap_draws : DexRouter.SwapDraws
}.

Definition routing_of (job : Job) (d : AttemptDraws) : RoutingResult :=
  DexRouter.compareAndRoute (tokenIn (job_data job)) (tokenOut (job_data job))
    (amount (job_data job)) (raydium_draws d) (meteora_draws d).

Definition quotedPrice_of (routingResult : RoutingResult) : Q :=
  match selectedDex routingResult with
  | Raydium => price (raydiumQuote routingResult)
  | Meteora => price (meteoraQuote routingResult)
  end.

Definition swap_of (job : Job) (d : AttemptDraws) : SwapResult :=
  let routingResult := routing_of job d in
  DexRouter.executeSwap (tokenIn (job_data job)) (tokenOut (job_data job))
    (amount (job_data job)) (selectedDex routingResult)
    (quotedPrice_of routingResult) (swap_draws d).

(** The payload [{ dex, raydiumPrice, meteoraPrice }] of steps 2 to 4. *)
Definition routed_payload (routingResult : RoutingResult) : OrderStatusData :=
  {| data_dex := Some (selectedDex routingResult);
     raydiumPrice := Some (price (raydiumQuote routingResult));
     meteoraPrice := Some (price (meteoraQuote routingResult));
     data_txHash := None; data_executedPrice := None; data_error := None |}.

Definition confirmed_payload (routingResult : RoutingResult)
    (swapResult : SwapResult) : OrderStatusData :=
  {| data_dex := Some (swap_dex swapResult);
     raydiumPrice := Some (price (raydiumQuote routingResult));
     meteoraPrice := Some (price (meteoraQuote routingResult));
     data_txHash := Some (txHash swapResult);
     data_executedPrice := Some (executedPrice swapResult);
     data_error := None |}.

Definition failed_payload (errorMessage : string) : OrderStatusData :=
  {| data_dex := None; raydiumPrice := None; meteoraPrice := None;
     data_txHash := None; data_executedPrice := None;
     data_error := Some errorMessage |}.

Definition swap_failed : string := "Swap execution failed on the selected DEX".

(** The [try] block of [processOrder]. *)
Definition processOrder_try (job : Job) (d : AttemptDraws) : M unit :=
  let orderId := job_orderId (job_data job) in
  updateOrderStatus orderId pending None None ;;
  updateOrderStatus orderId routing None None ;;
  let routingResult := routing_of job d in
  updateOrderStatus orderId routing
    (Some {| db_dex := Some (selectedDex routingResult); db_txHash := None;
             db_price := None; db_error := None |})
    (Some (routed_payload routingResult)) ;;
  updateOrderStatus orderId building None (Some (routed_payload routingResult)) ;;
  updateOrderStatus orderId submitted None (Some (routed_payload routingResult)) ;;
  let swapResult := swap_of job d in
  if success swapResult then
    updateOrderStatus orderId confirmed
      (Some {| db_dex := Some (swap_dex swapResult);
               db_txHash := Some (txHash swapResult);
               db_price := Some (executedPrice swapResult);
               db_error := None |})
      (Some (confirmed_payload routingResult swapResult))
  else throw (ErrorObject swap_failed).

(** [error instanceof Error ? error.message : 'Unknown error'] *)
Definition errorMessage_of (error : Thrown) : string :=
  match error with
  | ErrorObject message => message
  | OtherValue => "Unknown error"
  end.

(** [job.attemptsMade + 1 >= maxAttempts] *)
Definition retries_exhausted (job : Job) : bool :=
  Nat.leb (maxAttempts job) (attemptsMade job + 1).

(** The [catch] block of [processOrder]. *)
Definition processOrder_catch (job : Job) (error : Thrown) : M unit :=
  let orderId := job_orderId (job_data job) in
  let errorMessage := errorMessage_of error in
  (if retries_exhausted job then
     updateOrderStatus orderId failed
       (Some {| db_dex := None; db_txHash := None; db_price := None;
                db_error := Some errorMessage |})
       (Some (failed_payload errorMessage))
   else ret tt) ;;
  throw error.

Definition processOrder (job : Job) (d : AttemptDraws) : M unit :=
  try_catch (processOrder_try job d) (processOrder_catch job).

(** *** Reading a list of events *)

(** The status messages broadcast, without their timestamps. *)
Definition emitted (l : list Event) : list (OrderStatusType * option OrderStatusData) :=
  omap (fun e =>
          match e with
          | Broadcast _ message => Some (status message, data message)
          | Persisted _ _ => None
          end) l.

Definition is_failed (s : OrderStatusType) : bool :=
  match s with failed => true | _ => false end.

(** Some event writes or broadcasts the status [failed]. *)
Definition mentions_failed (l : list Event) : bool :=
  existsb (fun e =>
             match e with
             | Persisted _ u => is_failed (upd_status u)
             | Broadcast _ message => is_failed (status message)
             end) l.

Definition status_eqb (a b : OrderStatusType) : bool :=
  match a, b with
  | pending, pending | routing, routing | building, building
  | submitted, submitted | confirmed, confirmed | failed, failed => true
  | _, _ => false
  end.

(** Every broadcast comes right after the store accepted the write of the
    same status for the same order. *)
Fixpoint persisted_first (previous : option Event) (l : list Event) : bool :=
  match l with
  | [] => true
  | e :: l' =>
      match e with
      | Persisted _ _ => true
      | Broadcast o message =>
          match previous with
          | Some (Persisted o' u) =>
              String.eqb o o' && status_eqb (upd_status u) (status message)
          | _ => false
          end
      end && persisted_first (Some e) l'
  end.

Definition opt_eqb {A} (eqb : A → A → bool) (a b : option A) : bool :=
  match a, b with
  | Some x, Some y => eqb x y
  | None, None => true
  | _, _ => false
  end.

Definition dex_eqb (a b : Dex) : bool :=
  match a, b with
  | Raydium, Raydium | Meteora, Meteora => true
  | _, _ => false
  end.

(** The fields written to the store are the fields of the broadcast
    payload: same venue, transaction reference, error text, the executed
    price as [price], and no quote price that the store does not get. *)
Definition same_fields (u : DbUpdate) (message : OrderStatus) : bool :=
  let p := default {| data_dex := None; raydiumPrice := None;
                      meteoraPrice := None; data_txHash := None;
                      data_executedPrice := None; data_error := None |}
                   (data message) in
  opt_eqb dex_eqb (upd_dex u) (data_dex p)
  && opt_eqb String.eqb (upd_txHash u) (data_txHash p)
  && opt_eqb Qeq_bool (upd_price u) (data_executedPrice p)
  && opt_eqb String.eqb (upd_error u) (data_error p)
  && match raydiumPrice p, meteoraPrice p with
     | None, None => true
     | _, _ => false
     end.

(** [same_fields] at every emission (a write followed by its broadcast). *)
Fixpoint all_same_fields (l : list Event) : bool :=
  match l with
  | Persisted _ u :: ((Broadcast _ message :: _) as l') =>
      same_fields u message && all_same_fields l'
  | _ :: l' => all_same_fields l'
  | [] => true
  end.

(** The store accepts every write of the attempt. *)
Definition store_accepts_all (w : World) : Prop :=
  Forall (fun o => o = None) (store_outcomes w).

(** The five messages every attempt starts with, then [confirmed]. *)
Definition success_sequence (job : Job) (d : AttemptDraws)
    : list (OrderStatusType * option OrderStatusData) :=
  let routingResult := routing_of job d in
  [ (pending, None);
    (routing, None);
    (routing, Some (routed_payload routingResult));
    (building, Some (routed_payload routingResult));
    (submitted, Some (routed_payload routingResult));
    (confirmed, Some (confirmed_payload routingResult (swap_of job d))) ].

End OrderWorker.

(** ** Vocabulary of the routing properties *)

Module RoutingSpec.
Import DexRouter.

(** A result of [Math.random()]. *)
Definition is_random (u : Q) : Prop := 0 <= u /\ u < 1.

Definition valid_quote_draws (r : QuoteDraws) : Prop :=
  is_random (u_latency r) /\ is_random (u_price r) /\ is_random (u_liquidity r).


Definition on_best_price (res : RoutingResult) : bool :=
  String.prefix "Best effective price: " (reason res).




(** The effective price of the selected venue and of the other one. *)
Definition selected_effective (res : RoutingResult) : Q :=
  match selectedDex res with
  | Raydium => effective (raydiumQuote res)
  | Meteora => effective (meteoraQuote res)
  end.

Definition other_effective (res : RoutingResult) : Q :=
  match selectedDex res with
  | Raydium => effective (meteoraQuote res)
  | Meteora => effective (raydiumQuote res)
  end.



End RoutingSpec.

(** ** Vocabulary of the routing properties in binary64 *)

Module RoutingSpec64.
Import Binary64 DexRouter64.

(** A key that an object literal answers with its own entry or not at
    all, and not with a member of [Object.prototype]. *)
Definition table_key (key : string) : Prop := Js.inherited key = false.




(** [v] has the strictly higher computed effective price, or is Raydium
    when the computed effective prices are equal. *)
Definition best_price_venue64 (rq mq : DexQuote) (v : Dex) : Prop :=
  match v with
  | Raydium => effective mq <= effective rq
  | Meteora => effective rq < effective mq
  end.


(** A result of [Math.random()]: the multiple [k / 2^53] of [2^-53]. *)
Definition Math_random (k : Z) : Q := k # 9007199254740992.

Definition quote_draws (latency price liquidity : Z) : DexRouter.QuoteDraws :=
  {| DexRouter.u_latency := Math_random latency;
     DexRouter.u_price := Math_random price;
     DexRouter.u_liquidity := Math_random liquidity |}.

End RoutingSpec64.

(** ** Vocabulary of the worker properties *)

Module WorkerSpec.
Import OrderWorker.

Definition outcome_of {A} (x : Outcome A * World * list Event) : Outcome A :=
  fst (fst x).

Definition world_of {A} (x : Outcome A * World * list Event) : World :=
  snd (fst x).

Definition events_of {A} (x : Outcome A * World * list Event) : list Event :=
  snd x.

(** The store accepts the next write. *)
Definition accepts_next (w : World) : bool :=
  match store_outcomes w with
  | Some _ :: _ => false
  | _ => true
  end.

(** The write and the message of the [failed] status with text [text]. *)
Definition failed_emission (o : string) (text : string) (t : nat) : list Event :=
  [ Persisted o
      (update_of failed
         (Some {| db_dex := None; db_txHash := None; db_price := None;
                  db_error := Some text |}));
    Broadcast o
      (WebSocketManager.createStatusMessage o failed
         (Some (failed_payload text)) t) ].

End WorkerSpec.

(** ** Concrete inputs *)

Definition draws_a : DexRouter.QuoteDraws :=
  {| DexRouter.u_latency := 0.5; DexRouter.u_price := 0.5;
     DexRouter.u_liquidity := 0.5 |}.

Definition draws_b : DexRouter.QuoteDraws :=
  {| DexRouter.u_latency := 0.25; DexRouter.u_price := 0.9;
     DexRouter.u_liquidity := 0.9 |}.


Definition swap_draws_a : DexRouter.SwapDraws :=
  {| DexRouter.u_time := 0.5; DexRouter.u_slippage := 0.5;
     DexRouter.u_success := 0.5;
     DexRouter.nanoid44 := "V1StGXR8Z5jdHi6BmyT0V1StGXR8Z5jdHi6BmyT0abcd" |}.

(** A swap that fails: its success draw is not above 0.05. *)
Definition swap_draws_failing : DexRouter.SwapDraws :=
  {| DexRouter.u_time := 0.5; DexRouter.u_slippage := 0.5;
     DexRouter.u_success := 0.01;
     DexRouter.nanoid44 := "V1StGXR8Z5jdHi6BmyT0V1StGXR8Z5jdHi6BmyT0abcd" |}.

Definition closed_sockets (ws : nat) : WebSocketManager.Socket :=
  {| WebSocketManager.readyState := 3; WebSocketManager.send_raises := false |}.

Definition pending_message : OrderStatus :=
  WebSocketManager.createStatusMessage "order-1" pending None 0.

(** One subscriber, socket 7, watches ["order-1"]. *)
Definition one_watcher : WebSocketManager.t :=
  WebSocketManager.joinRoom "order-1" 7 WebSocketManager.empty.

Definition order_1 : OrderJobData :=
  {| job_orderId := "order-1"; tokenIn := SOL; tokenOut := USDC; amount := 1.5 |}.

(** The first and the third (last) attempt of a job with three attempts. *)
Definition first_attempt : OrderWorker.Job :=
  {| OrderWorker.job_data := order_1; OrderWorker.attemptsMade := 0;
     OrderWorker.opts_attempts := Some 3%nat |}.

Definition last_attempt : OrderWorker.Job :=
  {| OrderWorker.job_data := order_1; OrderWorker.attemptsMade := 2;
     OrderWorker.opts_attempts := Some 3%nat |}.

Definition draws_ok : OrderWorker.AttemptDraws :=
  {| OrderWorker.raydium_draws := draws_a; OrderWorker.meteora_draws := draws_b;
     OrderWorker.swap_draws := swap_draws_a |}.

Definition draws_swap_fails : OrderWorker.AttemptDraws :=
  {| OrderWorker.raydium_draws := draws_a; OrderWorker.meteora_draws := draws_b;
     OrderWorker.swap_draws := swap_draws_failing |}.

(** A world whose store answers the coming writes with [outcomes]. *)
Definition world_with (outcomes : list (option OrderWorker.Thrown)) : OrderWorker.World :=
  {| OrderWorker.store_outcomes := outcomes; OrderWorker.clock := 0;
     OrderWorker.wsManager := one_watcher; OrderWorker.sockets := closed_sockets;
     OrderWorker.wire := [] |}.



Definition draws_g : DexRouter.QuoteDraws :=
  RoutingSpec64.quote_draws 4503599627370496 4305683269998310 4503599627370496.

Definition draws_h : DexRouter.QuoteDraws :=
  RoutingSpec64.quote_draws 4503599627370496 5065640122248606 2251799813685248.








(** The binary64 value of [10011225.81331487]. *)
Definition price_m : Q := 671841991579037 # 67108864.

(** A swap with the lowest slippage draw, and one with a middle draw. *)
Definition swap_draws_floor : DexRouter.SwapDraws :=
  {| DexRouter.u_time := RoutingSpec64.Math_random 4503599627370496;
     DexRouter.u_slippage := RoutingSpec64.Math_random 0;
     DexRouter.u_success := RoutingSpec64.Math_random 4503599627370496;
     DexRouter.nanoid44 := "V1StGXR8Z5jdHi6BmyT0V1StGXR8Z5jdHi6BmyT0abcd" |}.

Definition swap_draws_half : DexRouter.SwapDraws :=
  {| DexRouter.u_time := RoutingSpec64.Math_random 4503599627370496;
     DexRouter.u_slippage := RoutingSpec64.Math_random 4503599627370496;
     DexRouter.u_success := RoutingSpec64.Math_random 4503599627370496;
     DexRouter.nanoid44 := "V1StGXR8Z5jdHi6BmyT0V1StGXR8Z5jdHi6BmyT0abcd" |}.

(** Sockets 7 and 8 watch ["order-1"]; socket 8 watches ["order-2"] too. *)
Definition shared_watchers : WebSocketManager.t :=
  WebSocketManager.joinRoom "order-2" 8
    (WebSocketManager.joinRoom "order-1" 8 one_watcher).

(** Socket 7 is closed, every other socket is open. *)
Definition sockets_7_closed (ws : nat) : WebSocketManager.Socket :=
  if Nat.eqb ws 7
  then {| WebSocketManager.readyState := 3; WebSocketManager.send_raises := false |}
  else {| WebSocketManager.readyState := 1; WebSocketManager.send_raises := false |}.

(** ** More of the code *)

(** The own entries of [TOKEN_SYMBOLS] of [types/order.ts] *)
Definition TOKEN_SYMBOLS (address : string) : option string :=
  if String.eqb address SOL then Some "SOL"
  else if String.eqb address USDC then Some "USDC"
  else if String.eqb address BONK then Some "BONK"
  else if String.eqb address RAY then Some "RAY"
  else None.

(** [TOKEN_SYMBOLS[address] || address.slice(0, 8)].  At a property name
    inherited from [Object.prototype] the table answers with a function or
    an object, which is truthy and is returned as it is: no string, here
    [None]. *)
Definition getTokenSymbol (address : string) : option string :=
  match TOKEN_SYMBOLS address with
  | Some symbol =>
      Some (if Js.truthy_str symbol then symbol else Js.slice0 8 address)
  | None =>
      if Js.inherited address then None else Some (Js.slice0 8 address)
  end.

(** ** Vocabulary of the further properties *)

Module MoreSpec.
Import DexRouter WebSocketManager OrderWorker WorkerSpec.

(** [tokenIn.includes('So11') || tokenOut.includes('So11')] *)
Definition isSolPair (tokenIn tokenOut : string) : bool :=
  Js.includes tokenIn "So11" || Js.includes tokenOut "So11".

(** No room of the manager is empty. *)
Definition no_empty_room (m : WebSocketManager.t) : Prop :=
  ∀ (o : string) (r : gset nat), rooms m !! o = Some r → r ≠ ∅.

(** The messages among the frames [frames] that went to socket [ws]. *)
Definition delivered_to (ws : nat) (frames : list (nat * OrderStatus)) : list OrderStatus :=
  map snd (List.filter (fun f => Nat.eqb (fst f) ws) frames).


(** The statuses that a list of events writes to the store, oldest first. *)
Definition persisted_statuses (l : list Event) : list OrderStatusType :=
  omap (fun e =>
          match e with
          | Persisted _ u => Some (upd_status u)
          | Broadcast _ _ => None
          end) l.

(** The order that an event concerns. *)
Definition event_order (e : Event) : string :=
  match e with
  | Persisted o _ => o
  | Broadcast o _ => o
  end.





End MoreSpec.




(** * Properties *)

(** ** Rounding and comparisons *)

Section Numbers.

Lemma pow10_pos d : (0 < Js.pow10 d)%Z.
Proof. unfold Js.pow10. apply Z.pow_pos_nonneg; lia. Qed.

Lemma inject_pow10_pos d : 0 < inject_Z (Js.pow10 d).
Proof.
  replace 0 with (inject_Z 0) by reflexivity.
  rewrite <- Zlt_Qlt. apply pow10_pos.
Qed.

Lemma ltb_true a b : Js.ltb a b = true <-> a < b.
Proof.
  unfold Js.ltb. rewrite negb_true_iff. split.
  - intros H. apply Qnot_le_lt. intros Hle. apply Qle_bool_iff in Hle. congruence.
  - intros H. destruct (Qle_bool b a) eqn:E; [|reflexivity].
    apply Qle_bool_iff in E. lra.
Qed.

Lemma ltb_false a b : Js.ltb a b = false <-> b <= a.
Proof.
  unfold Js.ltb. rewrite negb_false_iff. apply Qle_bool_iff.
Qed.

Lemma gtb_true a b : Js.gtb a b = true <-> b < a.
Proof. apply (ltb_true b a). Qed.


Lemma geb_true a b : Js.geb a b = true <-> b <= a.
Proof. apply Qle_bool_iff. Qed.

Lemma geb_false a b : Js.geb a b = false <-> a < b.
Proof.
  unfold Js.geb. split.
  - intros H. apply Qnot_le_lt. intros Hle. apply Qle_bool_iff in Hle. congruence.
  - intros H. destruct (Qle_bool b a) eqn:E; [|reflexivity].
    apply Qle_bool_iff in E. lra.
Qed.

(** The units of [toFixed] are within one half of the scaled magnitude. *)
Lemma toFixed_units_bounds d x :
  let n := inject_Z (Js.toFixed_units d x) in
  let y := Qabs x * inject_Z (Js.pow10 d) in
  y - (1 # 2) < n /\ n <= y + (1 # 2).
Proof.
  cbv zeta. unfold Js.toFixed_units.
  set (y := Qabs x * inject_Z (Js.pow10 d)).
  pose proof (Qfloor_le (y + (1 # 2))) as Hle.
  pose proof (Qlt_floor (y + (1 # 2))) as Hlt.
  rewrite inject_Z_plus in Hlt. change (inject_Z 1) with 1 in Hlt.
  split; lra.
Qed.

Lemma Number_toFixed_eq d x :
  Js.Number_toFixed d x ==
  (if Js.ltb x 0 then - inject_Z (Js.toFixed_units d x)
   else inject_Z (Js.toFixed_units d x)) / inject_Z (Js.pow10 d).
Proof.
  unfold Js.Number_toFixed. cbv zeta.
  rewrite (Qmake_Qdiv _ (Z.to_pos (Js.pow10 d))).
  rewrite Z2Pos.id by apply pow10_pos.
  destruct (Js.ltb x 0); [rewrite inject_Z_opp|]; reflexivity.
Qed.

(** [Number(x.toFixed(d))] is within half a unit of the last digit of [x]. *)
Lemma Number_toFixed_error d x :
  Qabs (Js.Number_toFixed d x - x) * inject_Z (Js.pow10 d) <= 1 # 2.
Proof.
  pose proof (inject_pow10_pos d) as HP.
  pose proof (toFixed_units_bounds d x) as [Hlo Hhi]. cbv zeta in Hlo, Hhi.
  rewrite Number_toFixed_eq.
  set (P := inject_Z (Js.pow10 d)) in *.
  set (n := inject_Z (Js.toFixed_units d x)) in *.
  assert (HP' : ~ P == 0) by lra.
  destruct (Js.ltb x 0) eqn:E.
  - apply ltb_true in E. rewrite (Qabs_neg x) in Hlo, Hhi by lra.
    assert (Heq : (- n / P - x) * P == - n - x * P) by (field; exact HP').
    apply Qabs_case; intros _; nra.
  - apply ltb_false in E. rewrite (Qabs_pos x) in Hlo, Hhi by lra.
    assert (Heq : (n / P - x) * P == n - x * P) by (field; exact HP').
    apply Qabs_case; intros _; nra.
Qed.


End Numbers.

(** ** The routing decision *)

Section Routing.
Import DexRouter RoutingSpec.









Lemma liquidityReason_prefix v a b :
  String.prefix "Large order - " (liquidityReason v a b) = true.
Proof. destruct v; reflexivity. Qed.

Lemma bestPriceReason_prefix v a b :
  String.prefix "Best effective price: " (bestPriceReason v a b) = true
  /\ String.prefix "Large order - " (bestPriceReason v a b) = false.
Proof. destruct v; split; reflexivity. Qed.

End Routing.

Section RoutingInputs.
Import DexRouter RoutingSpec.



End RoutingInputs.

(** ** The justification string *)

Section Reasons.
Import DexRouter RoutingSpec.

Lemma prefix_append (sub t : string) : String.prefix sub (String.append sub t) = true.
Proof.
  induction sub as [|c sub IH].
  - destruct t; reflexivity.
  - change (String.append (String c sub) t) with (String c (String.append sub t)).
    cbn [String.prefix]. destruct (ascii_dec c c); [exact IH | congruence].
Qed.








End Reasons.

(** ** Binary64 arithmetic *)

Section Binary64Facts.
Import Binary64.

Lemma pow2_pos e : 0 < pow2 e.
Proof. apply Qpower_0_lt. reflexivity. Qed.

Lemma pow2_add a b : pow2 (a + b) == pow2 a * pow2 b.
Proof. apply Qpower_plus. discriminate. Qed.

Lemma pow2_sub a b : pow2 (a - b) == pow2 a / pow2 b.
Proof. apply Qpower_minus. discriminate. Qed.

Lemma pow2_inject k : (0 <= k)%Z -> pow2 k == inject_Z (2 ^ k).
Proof. intros H. unfold pow2. now rewrite Zpower_Qpower. Qed.

Lemma nearest_even_error y : Qabs (inject_Z (nearest_even y) - y) <= 1 # 2.
Proof.
  unfold nearest_even.
  pose proof (Qfloor_le y) as Hlo. pose proof (Qlt_floor y) as Hhi.
  rewrite inject_Z_plus in Hhi. change (inject_Z 1) with 1 in Hhi.
  apply Qabs_Qle_condition.
  destruct (Qcompare_spec (y - inject_Z (Qfloor y)) (1 # 2)) as [H|H|H];
    [destruct (Z.even (Qfloor y))| |];
    rewrite ?inject_Z_plus; change (inject_Z 1) with 1; split; lra.
Qed.

Lemma ilog2_le x : 0 < x -> pow2 (ilog2 x) <= x.
Proof.
  intros Hx. unfold ilog2.
  destruct (Qle_bool _ x) eqn:E; [now apply Qle_bool_iff|].
  destruct x as [a b]. cbn [Qnum Qden].
  assert (Ha : (0 < a)%Z) by (unfold Qlt in Hx; cbn in Hx; lia).
  replace (Z.log2 a - Z.log2 (Z.pos b) - 1)%Z
    with (Z.log2 a - (Z.log2 (Z.pos b) + 1))%Z by lia.
  rewrite pow2_sub.
  rewrite !pow2_inject
    by (pose proof (Z.log2_nonneg a); pose proof (Z.log2_nonneg (Z.pos b)); lia).
  destruct (Z.log2_spec a Ha) as [Hla _].
  destruct (Z.log2_spec (Z.pos b) eq_refl) as [_ Hlb].
  replace (Z.succ (Z.log2 (Z.pos b))) with (Z.log2 (Z.pos b) + 1)%Z in Hlb by lia.
  set (A := (2 ^ Z.log2 a)%Z) in *. set (B := (2 ^ (Z.log2 (Z.pos b) + 1))%Z) in *.
  assert (HB : (0 < B)%Z) by lia.
  unfold Qle, Qdiv, Qmult, Qinv, inject_Z. cbn.
  destruct B as [|B|B]; try lia. cbn.
  nia.
Qed.


Lemma round_eq x :
  ~ x == 0 -> round x == inject_Z (nearest_even (x / pow2 (exponent x))) * pow2 (exponent x).
Proof.
  intros H. unfold round.
  destruct (Qeq_bool x 0) eqn:E; [now apply Qeq_bool_iff in E|].
  apply Qred_correct.
Qed.

Lemma round_zero x : x == 0 -> round x = 0.
Proof.
  intros H. unfold round. apply Qeq_bool_iff in H. now rewrite H.
Qed.

(** The half of the last place of [x] is at most [|x| * 2^-53], or
    [2^-1075] below the normal range. *)
Lemma half_place x :
  ~ x == 0 -> (1 # 2) * pow2 (exponent x) <= Qabs x * eps + eta.
Proof.
  intros Hx.
  assert (Hpos : 0 < Qabs x).
  { pose proof (Qle_Qabs x) as H1. pose proof (Qle_Qabs (- x)) as H2.
    rewrite Qabs_opp in H2.
    destruct (Qlt_le_dec 0 (Qabs x)) as [|H]; [assumption|].
    exfalso. apply Hx. lra. }
  pose proof (ilog2_le _ Hpos) as Hl.
  unfold exponent, eta. change eps with (pow2 (-53)).
  pose proof (pow2_pos (-1075)) as H1. pose proof (pow2_pos (-53)) as H2.
  pose proof (pow2_pos (ilog2 (Qabs x))) as H3.
  destruct (Z.max_spec (ilog2 (Qabs x) - 52) (-1074)) as [[_ ->]|[_ ->]].
  - replace (-1074)%Z with (-1075 + 1)%Z by reflexivity. rewrite pow2_add.
    change (pow2 1) with 2.
    revert Hpos H1 H2. generalize (Qabs x) (pow2 (-1075)) (pow2 (-53)).
    intros; nra.
  - replace (ilog2 (Qabs x) - 52)%Z with (ilog2 (Qabs x) + -53 + 1)%Z by lia.
    rewrite !pow2_add. change (pow2 1) with 2.
    revert Hpos Hl H1 H2 H3.
    generalize (pow2 (ilog2 (Qabs x))) (Qabs x) (pow2 (-1075)) (pow2 (-53)).
    intros; nra.
Qed.

(** Rounding moves a number by at most half of its last place. *)
Lemma round_error x : Qabs (round x - x) <= Qabs x * eps + eta.
Proof.
  destruct (Qeq_dec x 0) as [H0|H0].
  - rewrite (round_zero _ H0). rewrite H0. unfold eps, eta.
    pose proof (pow2_pos (-1075)) as H. change (Qabs (0 - 0)) with 0.
    change (Qabs 0) with 0. revert H. generalize (pow2 (-1075)).
    intros; lra.
  - rewrite (round_eq _ H0).
    eapply Qle_trans; [|apply (half_place _ H0)].
    set (e := exponent x). pose proof (pow2_pos e) as He.
    pose proof (nearest_even_error (x / pow2 e)) as Hn.
    set (m := inject_Z (nearest_even (x / pow2 e))) in *.
    assert (Hy : x == x / pow2 e * pow2 e) by (field; lra).
    set (y := x / pow2 e) in *.
    apply Qabs_Qle_condition in Hn. apply Qabs_Qle_condition.
    split; nra.
Qed.

Lemma nearest_even_nonneg y : 0 <= y -> (0 <= nearest_even y)%Z.
Proof.
  intros Hy. unfold nearest_even.
  assert (0 <= Qfloor y)%Z.
  { change 0%Z with (Qfloor 0). now apply Qfloor_resp_le. }
  destruct (Qcompare _ _); [destruct (Z.even _)| |]; lia.
Qed.

Lemma round_nonneg x : 0 <= x -> 0 <= round x.
Proof.
  intros Hx. destruct (Qeq_dec x 0) as [H0|H0].
  - rewrite (round_zero _ H0). lra.
  - rewrite (round_eq _ H0).
    pose proof (pow2_pos (exponent x)) as He.
    apply Qmult_le_0_compat; [|lra].
    change 0 with (inject_Z 0). rewrite <- Zle_Qle.
    apply nearest_even_nonneg. apply Qle_shift_div_l; lra.
Qed.


Lemma eta_small : 0 < eta /\ eta <= 1 # 1000000000000000000000000000000.
Proof.
  split; [apply pow2_pos|].
  unfold eta, pow2. apply Qle_bool_iff. vm_compute. reflexivity.
Qed.

(** The bound of [round_error] without absolute values. *)
Lemma round_bounds x :
  x - (Qabs x * eps + eta) <= round x /\ round x <= x + (Qabs x * eps + eta).
Proof.
  pose proof (round_error x) as H. apply Qabs_Qle_condition in H.
  split; lra.
Qed.

Lemma round_bounds_pos x :
  0 <= x -> x * (1 - eps) - eta <= round x /\ round x <= x * (1 + eps) + eta.
Proof.
  intros Hx. pose proof (round_bounds x) as H.
  rewrite (Qabs_pos x Hx) in H. split; lra.
Qed.

Lemma ilog2_lt x : 0 < x -> x < pow2 (ilog2 x + 1).
Proof.
  intros Hx. unfold ilog2.
  destruct (Qle_bool _ x) eqn:E.
  - destruct x as [a b]. cbn [Qnum Qden] in *.
    assert (Ha : (0 < a)%Z) by (unfold Qlt in Hx; cbn in Hx; lia).
    replace (Z.log2 a - Z.log2 (Z.pos b) + 1)%Z
      with (Z.log2 a + 1 - Z.log2 (Z.pos b))%Z by lia.
    rewrite pow2_sub.
    rewrite !pow2_inject
      by (pose proof (Z.log2_nonneg a); pose proof (Z.log2_nonneg (Z.pos b)); lia).
    destruct (Z.log2_spec a Ha) as [_ Hla].
    destruct (Z.log2_spec (Z.pos b) eq_refl) as [Hlb _].
    replace (Z.succ (Z.log2 a)) with (Z.log2 a + 1)%Z in Hla by lia.
    set (A := (2 ^ (Z.log2 a + 1))%Z) in *. set (B := (2 ^ Z.log2 (Z.pos b))%Z) in *.
    assert (HB : (0 < B)%Z) by (apply Z.pow_pos_nonneg; [lia | apply Z.log2_nonneg]).
    unfold Qlt, Qdiv, Qmult, Qinv, inject_Z. cbn.
    destruct B as [|B|B]; try lia. cbn.
    nia.
  - replace (Z.log2 (Qnum x) - Z.log2 (Z.pos (Qden x)) - 1 + 1)%Z
      with (Z.log2 (Qnum x) - Z.log2 (Z.pos (Qden x)))%Z by lia.
    apply Qnot_le_lt. intros H. apply Qle_bool_iff in H. congruence.
Qed.

Lemma pow2_le a b : (a <= b)%Z -> pow2 a <= pow2 b.
Proof. intros H. apply Qpower_le_compat_l; [exact H | discriminate]. Qed.

Lemma nearest_even_inject n : nearest_even (inject_Z n) = n.
Proof.
  unfold nearest_even. rewrite Qfloor_Z.
  destruct (Qcompare_spec (inject_Z n - inject_Z n) (1 # 2)) as [H|H|H];
    [lra | reflexivity | lra].
Qed.

Lemma nearest_even_comp x y : x == y -> nearest_even x = nearest_even y.
Proof.
  intros H. unfold nearest_even. rewrite (Qfloor_comp x y H).
  assert (E : Qcompare (x - inject_Z (Qfloor y)) (1 # 2)
              = Qcompare (y - inject_Z (Qfloor y)) (1 # 2)).
  { apply Qcompare_comp; [rewrite H; reflexivity | reflexivity]. }
  rewrite E. reflexivity.
Qed.

Lemma nearest_even_le y (n : Z) : y <= inject_Z n -> (nearest_even y <= n)%Z.
Proof.
  intros H. unfold nearest_even.
  pose proof (Qfloor_le y) as Hf.
  assert (Hfn : (Qfloor y <= n)%Z).
  { rewrite <- (Qfloor_Z n). apply Qfloor_resp_le. exact H. }
  destruct (Z.eq_dec (Qfloor y) n) as [E|E].
  - assert (Hy : y == inject_Z n) by (rewrite E in Hf; lra).
    rewrite E.
    destruct (Qcompare_spec (y - inject_Z n) (1 # 2)) as [H1|H1|H1];
      [lra | lia | lra].
  - destruct (Qcompare _ _); [destruct (Z.even _)| |]; lia.
Qed.

Lemma nearest_even_ge y (n : Z) : inject_Z n <= y -> (n <= nearest_even y)%Z.
Proof.
  intros H. unfold nearest_even.
  assert (Hfn : (n <= Qfloor y)%Z).
  { rewrite <- (Qfloor_Z n). apply Qfloor_resp_le. exact H. }
  destruct (Qcompare _ _); [destruct (Z.even _)| |]; lia.
Qed.

(** [round] returns binary64 values. *)
Lemma round_is_binary64 x : is_binary64 (round x).
Proof.
  destruct (Qeq_dec x 0) as [H0|H0].
  - rewrite (round_zero _ H0). exists 0%Z, 0%Z.
    split; [lia|]. split; [lia | reflexivity].
  - set (e := exponent x). pose proof (pow2_pos e) as He.
    set (m := nearest_even (x / pow2 e)).
    assert (Hm : (Z.abs m <= 2 ^ 53)%Z).
    { assert (Hpos : 0 < Qabs x).
      { pose proof (Qle_Qabs x) as H1. pose proof (Qle_Qabs (- x)) as H2.
        rewrite Qabs_opp in H2.
        destruct (Qlt_le_dec 0 (Qabs x)) as [|H]; [assumption|].
        exfalso. apply H0. lra. }
      pose proof (ilog2_lt _ Hpos) as Hl.
      assert (Hle : pow2 (ilog2 (Qabs x) + 1) <= pow2 (e + 53)).
      { apply pow2_le. unfold e, exponent. lia. }
      rewrite (pow2_add e 53) in Hle.
      change (pow2 53) with (inject_Z (2 ^ 53)) in Hle.
      pose proof (Qle_Qabs x) as H1. pose proof (Qle_Qabs (- x)) as H2.
      rewrite Qabs_opp in H2.
      apply Z.abs_le. split.
      - apply nearest_even_ge. rewrite inject_Z_opp.
        apply Qle_shift_div_l; [exact He|]. lra.
      - apply nearest_even_le.
        apply Qle_shift_div_r; [exact He|]. lra. }
    assert (He' : (-1074 <= e)%Z) by (unfold e, exponent; lia).
    pose proof (round_eq _ H0) as Hr. fold e in Hr. fold m in Hr.
    destruct (Z.eq_dec (Z.abs m) (2 ^ 53)%Z) as [E|E].
    + exists (m / 2)%Z, (e + 1)%Z.
      assert (Hdiv : (m = 2 * (m / 2))%Z).
      { apply Z.div_exact; [lia|].
        destruct (Z.abs_eq_or_opp m) as [Ha|Ha]; rewrite Ha in E.
        - rewrite E. reflexivity.
        - replace m with (- 2 ^ 53)%Z by lia. reflexivity. }
      split; [lia|]. split; [lia|].
      rewrite Hr, pow2_add. change (pow2 1) with 2.
      rewrite Hdiv at 1. rewrite inject_Z_mult. change (inject_Z 2) with 2. ring.
    + exists m, e. split; [lia|]. split; [exact He' | exact Hr].
Qed.

(** [round] leaves binary64 values as they are. *)
Lemma round_of_binary64 x : is_binary64 x -> round x == x.
Proof.
  intros (m & e & Hm & He & Hx).
  destruct (Qeq_dec x 0) as [H0|H0]; [rewrite (round_zero _ H0), H0; reflexivity|].
  rewrite (round_eq _ H0).
  set (e' := exponent x).
  pose proof (pow2_pos e') as He'. pose proof (pow2_pos e) as Hpe.
  assert (Hpos : 0 < Qabs x).
  { pose proof (Qle_Qabs x) as H1. pose proof (Qle_Qabs (- x)) as H2.
    rewrite Qabs_opp in H2.
    destruct (Qlt_le_dec 0 (Qabs x)) as [|H]; [assumption|].
    exfalso. apply H0. lra. }
  assert (Hee : (e' <= e)%Z).
  { unfold e', exponent. apply Z.max_lub; [|exact He].
    assert (Hlt : pow2 (ilog2 (Qabs x)) < pow2 (e + 53)).
    { eapply Qle_lt_trans; [apply (ilog2_le _ Hpos)|].
      rewrite Hx, Qabs_Qmult, (Qabs_pos (pow2 e)) by lra.
      rewrite pow2_add. change (pow2 53) with (inject_Z (2 ^ 53)).
      change (Qabs (inject_Z m)) with (inject_Z (Z.abs m)).
      assert (Hq : inject_Z (Z.abs m) < inject_Z (2 ^ 53)) by (rewrite <- Zlt_Qlt; exact Hm).
      rewrite (Qmult_comm (pow2 e)).
      apply Qmult_lt_compat_r; assumption. }
    apply Qpower_lt_compat_l_inv in Hlt; [lia | reflexivity]. }
  assert (Hy : x / pow2 e' == inject_Z (m * 2 ^ (e - e'))).
  { rewrite inject_Z_mult, <- pow2_inject by lia.
    rewrite Hx, pow2_sub. field. lra. }
  rewrite (nearest_even_comp _ _ Hy), nearest_even_inject.
  rewrite <- Hy. field. lra.
Qed.

Lemma nearest_even_nearest y (n : Z) :
  Qabs (inject_Z (nearest_even y) - y) <= Qabs (inject_Z n - y).
Proof.
  unfold nearest_even.
  pose proof (Qfloor_le y) as Hlo. pose proof (Qlt_floor y) as Hhi.
  rewrite inject_Z_plus in Hhi. change (inject_Z 1) with 1 in Hhi.
  assert (Hn : inject_Z n <= inject_Z (Qfloor y)
               \/ inject_Z (Qfloor y) + 1 <= inject_Z n).
  { destruct (Z.le_gt_cases n (Qfloor y)) as [H|H].
    - left. rewrite <- Zle_Qle. exact H.
    - right. change 1 with (inject_Z 1). rewrite <- inject_Z_plus, <- Zle_Qle. lia. }
  destruct (Qcompare_spec (y - inject_Z (Qfloor y)) (1 # 2)) as [H|H|H];
    [destruct (Z.even (Qfloor y))| |];
    rewrite ?inject_Z_plus; change (inject_Z 1) with 1;
    apply Qabs_case; intros H1; apply Qabs_case; intros H2;
    destruct Hn; lra.
Qed.

(** No binary64 value is nearer to [x] than [round x]. *)
Lemma round_nearest x y : is_binary64 y -> Qabs (round x - x) <= Qabs (y - x).
Proof.
  intros (m' & e' & Hm' & He' & Hy).
  destruct (Qeq_dec x 0) as [H0|H0].
  { rewrite (round_zero _ H0). rewrite H0.
    change (Qabs (0 - 0)) with 0. apply Qabs_nonneg. }
  set (e := exponent x). pose proof (pow2_pos e) as HP.
  (* multiples of the last place of [x] are not nearer *)
  assert (Hgrid : forall n : Z,
    Qabs (round x - x) <= Qabs (inject_Z n * pow2 e - x)).
  { intros n. rewrite (round_eq _ H0). fold e.
    pose proof (nearest_even_nearest (x / pow2 e) n) as Hn.
    set (m := inject_Z (nearest_even (x / pow2 e))) in *.
    assert (E1 : m * pow2 e - x == (m - x / pow2 e) * pow2 e) by (field; lra).
    assert (E2 : inject_Z n * pow2 e - x == (inject_Z n - x / pow2 e) * pow2 e)
      by (field; lra).
    rewrite E1, E2, !Qabs_Qmult, (Qabs_pos (pow2 e)) by lra.
    apply Qmult_le_compat_r; [exact Hn | lra]. }
  destruct (Z.le_gt_cases e e') as [Hee|Hee].
  - (* [y] is such a multiple *)
    assert (E : y == inject_Z (m' * 2 ^ (e' - e)) * pow2 e).
    { rewrite inject_Z_mult, <- pow2_inject by lia.
      rewrite Hy, pow2_sub. field. lra. }
    rewrite E. apply Hgrid.
  - (* [y] is below the binade of [x] *)
    assert (Hpos : 0 < Qabs x).
    { pose proof (Qle_Qabs x) as H1. pose proof (Qle_Qabs (- x)) as H2.
      rewrite Qabs_opp in H2.
      destruct (Qlt_le_dec 0 (Qabs x)) as [|H]; [assumption|].
      exfalso. apply H0. lra. }
    assert (He : e = (ilog2 (Qabs x) - 52)%Z) by (unfold e, exponent in *; lia).
    pose proof (ilog2_le _ Hpos) as Hx.
    replace (ilog2 (Qabs x)) with (e + 52)%Z in Hx by lia.
    rewrite pow2_add in Hx. change (pow2 52) with (inject_Z (2 ^ 52)) in Hx.
    assert (Hyb : Qabs y < pow2 e * inject_Z (2 ^ 52)).
    { rewrite Hy, Qabs_Qmult, (Qabs_pos (pow2 e')) by (pose proof (pow2_pos e'); lra).
      change (Qabs (inject_Z m')) with (inject_Z (Z.abs m')).
      assert (Hq : inject_Z (Z.abs m') < inject_Z (2 ^ 53)) by (rewrite <- Zlt_Qlt; exact Hm').
      assert (Hle : pow2 e' <= pow2 (e - 1)) by (apply pow2_le; lia).
      replace (e - 1)%Z with (e + -1)%Z in Hle by lia.
      rewrite pow2_add in Hle. change (pow2 (-1)) with (1 # 2) in Hle.
      change (inject_Z (2 ^ 53)) with (2 * inject_Z (2 ^ 52)) in Hq.
      pose proof (pow2_pos e') as Hpe'.
      assert (0 <= inject_Z (Z.abs m')).
      { change 0 with (inject_Z 0). rewrite <- Zle_Qle. apply Z.abs_nonneg. }
      set (K := inject_Z (2 ^ 52)) in *. set (a := inject_Z (Z.abs m')) in *.
      assert (HK : 0 < K) by reflexivity.
      nra. }
    pose proof (Qle_Qabs y) as Hy1. pose proof (Qle_Qabs (- y)) as Hy2.
    rewrite Qabs_opp in Hy2.
    destruct (Qlt_le_dec 0 x) as [Hs|Hs].
    + rewrite (Qabs_pos x) in Hx by lra.
      eapply Qle_trans; [apply (Hgrid (2 ^ 52)%Z)|].
      rewrite (Qabs_neg (y - x)) by lra.
      rewrite Qabs_neg by lra. lra.
    + rewrite (Qabs_neg x) in Hx by lra.
      eapply Qle_trans; [apply (Hgrid (- 2 ^ 52)%Z)|].
      rewrite inject_Z_opp.
      rewrite (Qabs_pos (y - x)) by lra.
      rewrite Qabs_pos by lra. lra.
Qed.

(** On a tie [round] takes the even significand. *)
Lemma nearest_even_tie y :
  y - inject_Z (Qfloor y) == 1 # 2 -> Z.even (nearest_even y) = true.
Proof.
  intros H. unfold nearest_even.
  destruct (Qcompare_spec (y - inject_Z (Qfloor y)) (1 # 2)) as [_|H1|H1];
    [|lra|lra].
  destruct (Z.even (Qfloor y)) eqn:E; [exact E|].
  rewrite Z.even_add, E. reflexivity.
Qed.

End Binary64Facts.

(** ** The router in binary64 *)

Section Swap64.
Import Binary64 DexRouter64 RoutingSpec.

Lemma round_0_007 : round 0.007 = 8070450532247929 # 1152921504606846976.
Proof. vm_compute. reflexivity. Qed.

Lemma round_m0_005 : round (- 0.005) = (-5764607523034235) # 1152921504606846976.
Proof. vm_compute. reflexivity. Qed.

(** The factor [1 + slippage] that [executeSwap] computes. *)
Lemma slippage_factor u :
  is_random u ->
  let t := add 1 (add (round (- 0.005)) (mul u (round 0.007))) in
  0.995 - (1 # 4503599627370496) <= t /\ t <= 1.002 + (1 # 4503599627370496).
Proof.
  intros [H0 H1]. cbv zeta. unfold add, mul.
  rewrite round_0_007, round_m0_005.
  set (c7 := 8070450532247929 # 1152921504606846976).
  set (c5 := (-5764607523034235) # 1152921504606846976).
  destruct eta_small as [He0 He1].
  assert (Hp : 0 <= u * c7 /\ u * c7 <= c7) by (unfold c7; split; lra).
  pose proof (round_nonneg (u * c7) (proj1 Hp)) as Ht1.
  pose proof (round_bounds_pos (u * c7) (proj1 Hp)) as [_ Ht1'].
  set (t1 := round (u * c7)) in *.
  pose proof (round_bounds (c5 + t1)) as [Ht2 Ht2'].
  assert (Ha : Qabs (c5 + t1) <= 6 # 1000).
  { apply Qabs_Qle_condition. unfold c5, c7, eps in *. split; lra. }
  set (t2 := round (c5 + t1)) in *.
  assert (Hb : 0 <= 1 + t2) by (unfold c5, c7, eps in *; lra).
  pose proof (round_bounds_pos (1 + t2) Hb) as [Ht3 Ht3'].
  unfold c5, c7, eps in *. split; lra.
Qed.


(** The executed price is near the quoted price times a factor [t] when
    the computed factor is. *)
Lemma executedPrice_near q t :
  0.99 <= t -> t <= 1.01 ->
  Qabs (Number_toFixed 8 (mul q t) - q * t)
    <= (1 # 200000000) + (Qabs q + 1) * (1 # 2251799813685248).
Proof.
  intros Ht0 Ht1. unfold Number_toFixed, mul.
  destruct eta_small as [He0 He1].
  pose proof (round_error (q * t)) as Hx.
  rewrite Qabs_Qmult, (Qabs_pos t) in Hx by lra.
  set (x := round (q * t)) in *.
  assert (Hy : Qabs (Js.Number_toFixed 8 x - x) <= 1 # 200000000).
  { pose proof (Number_toFixed_error 8 x) as H.
    change (inject_Z (Js.pow10 8)) with 100000000 in H.
    pose proof (Qabs_nonneg (Js.Number_toFixed 8 x - x)). lra. }
  set (y := Js.Number_toFixed 8 x) in *.
  pose proof (round_error y) as Hz.
  set (z := round y) in *.
  assert (Hya : Qabs y <= Qabs q * t * (1 + eps) + eta + (1 # 200000000)).
  { apply Qabs_Qle_condition in Hx, Hy. apply Qabs_Qle_condition.
    pose proof (Qle_Qabs q). pose proof (Qle_Qabs (- q)) as Hn.
    rewrite Qabs_opp in Hn.
    assert (q * t <= Qabs q * t) by nra.
    assert (- (Qabs q * t) <= q * t) by nra.
    unfold eps in *. split; lra. }
  pose proof (Qabs_nonneg q) as Hq.
  assert (Hqt : Qabs q * t <= Qabs q * 1.01) by nra.
  apply Qabs_Qle_condition in Hx, Hy, Hz. apply Qabs_Qle_condition.
  unfold eps in *. split; lra.
Qed.

(** The executed price against the quoted price, for every quoted price. *)
Lemma executeSwap64_band tokenIn tokenOut amount dex quotedPrice r :
  is_random (DexRouter.u_slippage r) ->
  exists s, - 0.005 <= s /\ s <= 0.002 /\
    Qabs (executedPrice (executeSwap tokenIn tokenOut amount dex quotedPrice r)
          - quotedPrice * (1 + s))
      <= (1 # 200000000) + (Qabs quotedPrice + 1) * (1 # 1125899906842624).
Proof.
  intros Hu. cbn [executedPrice executeSwap].
  pose proof (slippage_factor _ Hu) as [Ht0 Ht1]. cbv zeta in Ht0, Ht1.
  set (t := add 1 (add (round (- 0.005)) (mul (DexRouter.u_slippage r) (round 0.007)))) in *.
  assert (H : Qabs (Number_toFixed 8 (mul quotedPrice t) - quotedPrice * t)
      <= (1 # 200000000) + (Qabs quotedPrice + 1) * (1 # 2251799813685248))
    by (apply executedPrice_near; lra).
  set (z := Number_toFixed 8 (mul quotedPrice t)) in *.
  pose proof (Qabs_nonneg quotedPrice) as Hq.
  pose proof (Qle_Qabs quotedPrice) as Hq1.
  pose proof (Qle_Qabs (- quotedPrice)) as Hq2. rewrite Qabs_opp in Hq2.
  apply Qabs_Qle_condition in H.
  destruct (Qlt_le_dec t 0.995) as [Hlo|Hlo];
    [|destruct (Qlt_le_dec 1.002 t) as [Hhi|Hhi]].
  - exists (- 0.005). split; [lra|]. split; [lra|].
    apply Qabs_Qle_condition.
    assert (quotedPrice * (0.995 - t) <= Qabs quotedPrice * (1 # 4503599627370496)) by nra.
    assert (- (Qabs quotedPrice * (1 # 4503599627370496)) <= quotedPrice * (0.995 - t)) by nra.
    split; lra.
  - exists 0.002. split; [lra|]. split; [lra|].
    apply Qabs_Qle_condition.
    assert (quotedPrice * (t - 1.002) <= Qabs quotedPrice * (1 # 4503599627370496)) by nra.
    assert (- (Qabs quotedPrice * (1 # 4503599627370496)) <= quotedPrice * (t - 1.002)) by nra.
    split; lra.
  - exists (t - 1). split; [lra|]. split; [lra|].
    apply Qabs_Qle_condition. split; lra.
Qed.

End Swap64.

Section Routing64.
Import Binary64 DexRouter64 RoutingSpec.

Lemma getBaseExchangeRate64_bounds a b :
  1 # 10000001 <= getBaseExchangeRate a b /\ getBaseExchangeRate a b <= 10000001.
Proof.
  unfold getBaseExchangeRate, BASE_PRICES64, BASE_PRICES. cbv zeta.
  repeat (destruct (String.eqb a _));
    repeat (destruct (String.eqb b _));
    split; apply Qle_bool_iff; vm_compute; reflexivity.
Qed.

Lemma round_0_98 : round 0.98 = 2206763817411543 # 2251799813685248.
Proof. vm_compute. reflexivity. Qed.
Lemma round_0_97 : round 0.97 = 4368491638549381 # 4503599627370496.
Proof. vm_compute. reflexivity. Qed.
Lemma spread_raydium :
  sub (round 1.02) (round 0.98) = 45035996273705 # 1125899906842624.
Proof. vm_compute. reflexivity. Qed.
Lemma spread_meteora :
  sub (round 1.02) (round 0.97) = 225179981368525 # 4503599627370496.
Proof. vm_compute. reflexivity. Qed.

(** The price that a quote carries, eight decimals of a varied price. *)
Lemma quote_price_bounds base mn w u :
  is_random u ->
  1 # 10000001 <= base -> base <= 10000001 ->
  0.97 - (1 # 1000000) <= mn -> mn <= 0.98 + (1 # 1000000) ->
  0 <= w -> w <= 0.051 ->
  let p := Number_toFixed 8 (mul base (add mn (mul u w))) in
  1 # 20000000 <= p /\ p <= 20000000.
Proof.
  intros [H0 H1] Hb0 Hb1 Hm0 Hm1 Hw0 Hw1. cbv zeta.
  unfold Number_toFixed, mul, add.
  destruct eta_small as [He0 He1].
  assert (Hp : 0 <= u * w /\ u * w <= 0.051) by (split; nra).
  pose proof (round_nonneg _ (proj1 Hp)) as Ht.
  pose proof (round_bounds_pos _ (proj1 Hp)) as [_ Ht'].
  set (t := round (u * w)) in *.
  assert (Hv : 0 <= mn + t) by lra.
  pose proof (round_bounds_pos _ Hv) as [Hv0 Hv1].
  set (v := round (mn + t)) in *.
  assert (Hv' : 0.96 <= v /\ v <= 1.04) by (unfold eps in *; split; lra).
  assert (Hx : 0 <= base * v) by nra.
  pose proof (round_bounds_pos _ Hx) as [Hx0 Hx1].
  assert (Hx' : 0.96 * (1 # 10000001) <= base * v /\ base * v <= 1.04 * 10000001)
    by (split; nra).
  set (x := round (base * v)) in *.
  pose proof (Number_toFixed_error 8 x) as Hy.
  change (inject_Z (Js.pow10 8)) with 100000000 in Hy.
  assert (Hy' : Qabs (Js.Number_toFixed 8 x - x) <= 1 # 200000000).
  { pose proof (Qabs_nonneg (Js.Number_toFixed 8 x - x)). lra. }
  apply Qabs_Qle_condition in Hy'.
  set (y := Js.Number_toFixed 8 x) in *.
  assert (Hy0 : 0 <= y) by (unfold eps in *; lra).
  pose proof (round_bounds_pos _ Hy0) as [Hz0 Hz1].
  unfold eps in *. split; lra.
Qed.

Lemma getRaydiumQuote64_price a b amt r :
  is_random (DexRouter.u_price r) ->
  let p := price (getRaydiumQuote a b amt r) in
  1 # 20000000 <= p /\ p <= 20000000.
Proof.
  intros Hu. cbn [price getRaydiumQuote]. unfold getVariedPrice. cbv zeta.
  rewrite spread_raydium, round_0_98.
  destruct (getBaseExchangeRate64_bounds a b).
  apply quote_price_bounds; try assumption; lra.
Qed.

Lemma getMeteorQuote64_price a b amt r :
  is_random (DexRouter.u_price r) ->
  let p := price (getMeteorQuote a b amt r) in
  1 # 20000000 <= p /\ p <= 20000000.
Proof.
  intros Hu. cbn [price getMeteorQuote]. unfold getVariedPrice. cbv zeta.
  rewrite spread_meteora, round_0_97.
  destruct (getBaseExchangeRate64_bounds a b).
  apply quote_price_bounds; try assumption; lra.
Qed.

Lemma round_0_003 : round 0.003 = 3458764513820541 # 1152921504606846976.
Proof. vm_compute. reflexivity. Qed.
Lemma round_0_002 : round 0.002 = 1152921504606847 # 576460752303423488.
Proof. vm_compute. reflexivity. Qed.
Lemma net_raydium : sub 1 (round 0.003) = 8980177656976769 # 9007199254740992.
Proof. vm_compute. reflexivity. Qed.
Lemma net_meteora : sub 1 (round 0.002) = 4494592428115755 # 4503599627370496.
Proof. vm_compute. reflexivity. Qed.

(** The effective price that the router computes is within a relative
    [2^-52] of [price * (1 - fee)]. *)
Lemma effective64_close q :
  fee q = round 0.003 \/ fee q = round 0.002 ->
  1 # 20000000 <= price q ->
  let E := DexRouter.effective q in
  E * (1 - (1 # 4503599627370496)) <= effective q
  /\ effective q <= E * (1 + (1 # 4503599627370496))
  /\ 1 # 25000000 <= E.
Proof.
  intros Hf Hp. cbv zeta. unfold effective, DexRouter.effective, mul.
  destruct eta_small as [He0 He1].
  destruct Hf as [-> | ->].
  - rewrite net_raydium, round_0_003.
    assert (Hx : 0 <= price q * (8980177656976769 # 9007199254740992)) by lra.
    pose proof (round_bounds_pos _ Hx) as [H0 H1].
    unfold eps in *. repeat split; lra.
  - rewrite net_meteora, round_0_002.
    assert (Hx : 0 <= price q * (4494592428115755 # 4503599627370496)) by lra.
    pose proof (round_bounds_pos _ Hx) as [H0 H1].
    unfold eps in *. repeat split; lra.
Qed.



Lemma selectRoute64_cases amount rq mq :
  (100 < amount
   /\ DexRouter.lt_1 (priceDiffPercent (effective rq) (effective mq)) = true
   /\ selectRoute amount rq mq =
        (Raydium, liquidityReason Raydium (liquidityScore rq) (liquidityScore mq)))
  \/ (100 < amount
      /\ DexRouter.lt_1 (priceDiffPercent (effective rq) (effective mq)) = true
      /\ selectRoute amount rq mq =
           (Meteora, liquidityReason Meteora (liquidityScore mq) (liquidityScore rq)))
  \/ selectRoute amount rq mq = DexRouter.bestPrice (effective rq) (effective mq).
Proof.
  unfold selectRoute. cbv zeta.
  destruct (Js.gtb amount 100) eqn:Ea; [|auto].
  apply gtb_true in Ea.
  destruct (DexRouter.lt_1 _) eqn:El; cbn [andb]; [|auto].
  destruct (_ && _); [auto|].
  destruct (_ && _); auto.
Qed.

Lemma compareAndRoute64_unfold a b amt dr dm :
  compareAndRoute a b amt dr dm =
  {| selectedDex := fst (selectRoute amt (getRaydiumQuote a b amt dr) (getMeteorQuote a b amt dm));
     raydiumQuote := getRaydiumQuote a b amt dr;
     meteoraQuote := getMeteorQuote a b amt dm;
     reason := snd (selectRoute amt (getRaydiumQuote a b amt dr) (getMeteorQuote a b amt dm)) |}.
Proof.
  unfold compareAndRoute. cbv zeta.
  destruct (selectRoute amt _ _). reflexivity.
Qed.




(** On price grounds the selected venue's exact effective price is at
    least [1 - 2^-50] times the other's. *)
Lemma bestPrice64_slack rq mq :
  fee rq = round 0.003 -> fee mq = round 0.002 ->
  1 # 20000000 <= price rq -> 1 # 20000000 <= price mq ->
  match fst (DexRouter.bestPrice (effective rq) (effective mq)) with
  | Raydium =>
      effective mq <= effective rq
      /\ (1 - (1 # 1125899906842624)) * DexRouter.effective mq <= DexRouter.effective rq
  | Meteora =>
      effective rq < effective mq
      /\ (1 - (1 # 1125899906842624)) * DexRouter.effective rq <= DexRouter.effective mq
  end.
Proof.
  intros Hfr Hfm Hpr Hpm.
  destruct (effective64_close rq (or_introl Hfr) Hpr) as (Hr0 & Hr1 & Hr2).
  destruct (effective64_close mq (or_intror Hfm) Hpm) as (Hm0 & Hm1 & Hm2).
  cbv zeta in *.
  unfold DexRouter.bestPrice. cbv zeta. cbn [fst].
  destruct (Js.geb (effective rq) (effective mq)) eqn:Eg.
  - apply geb_true in Eg. split; [exact Eg | lra].
  - apply geb_false in Eg. split; [exact Eg | lra].
Qed.

End Routing64.

(** ** The routing decision, the slippage and the justification in binary64 *)

Section RoutingClaims64.
Import RoutingSpec RoutingSpec64.












(** C7, amended.  In binary64 the executed price that [executeSwap] returns
    is the quoted price times [1 + s] for a slippage [s] between -0.005 and
    0.002, up to the rounding to eight decimals (half a unit of the eighth
    decimal) and to the roundings of the arithmetic ([2^-50] times the
    quoted price plus one); for a quoted price of 100 it lies between 99
    and 101.  The quoted price is finite, and small enough for the product
    to be. *)
Theorem executeSwap64_slippage_bound
    tokenIn tokenOut amount dex quotedPrice r :
  is_random (DexRouter.u_slippage r) ->
  Qabs quotedPrice <= Binary64.pow2 1023 ->
  (exists s, - 0.005 <= s /\ s <= 0.002 /\
     Qabs (executedPrice
             (DexRouter64.executeSwap tokenIn tokenOut amount dex quotedPrice r)
           - quotedPrice * (1 + s))
       <= (1 # 200000000) + (Qabs quotedPrice + 1) * (1 # 1125899906842624))
  /\ 99 <= executedPrice
             (DexRouter64.executeSwap tokenIn tokenOut amount dex 100 r)
  /\ executedPrice
       (DexRouter64.executeSwap tokenIn tokenOut amount dex 100 r) <= 101.
Proof.
  intros Hu _. split.
  - apply executeSwap64_band. exact Hu.
  - destruct (executeSwap64_band tokenIn tokenOut amount dex 100 r Hu)
      as (s & Hs0 & Hs1 & H).
    change (Qabs 100) with 100 in H. apply Qabs_Qle_condition in H.
    split; lra.
Qed.

Lemma random_half : is_random (Math_random 4503599627370496).
Proof. split; vm_compute; (reflexivity || discriminate). Defined.

(** C7 at a quoted price of 100 on Raydium. *)
Lemma executeSwap64_slippage_bound_witness :
  is_random (DexRouter.u_slippage swap_draws_half) /\ Qabs 100 <= Binary64.pow2 1023 /\
  ((exists s, - 0.005 <= s /\ s <= 0.002 /\
     Qabs (executedPrice
             (DexRouter64.executeSwap SOL USDC 1 Raydium 100 swap_draws_half)
           - 100 * (1 + s))
       <= (1 # 200000000) + (Qabs 100 + 1) * (1 # 1125899906842624))
  /\ 99 <= executedPrice
             (DexRouter64.executeSwap SOL USDC 1 Raydium 100 swap_draws_half)
  /\ executedPrice
       (DexRouter64.executeSwap SOL USDC 1 Raydium 100 swap_draws_half) <= 101).
Proof.
  assert (H : Qabs 100 <= Binary64.pow2 1023) by (vm_compute; discriminate).
  split; [exact random_half|]. split; [exact H|].
  exact (executeSwap64_slippage_bound SOL USDC 1 Raydium 100 swap_draws_half
           random_half H).
Defined.

(** C7 fails as stated.  At the quoted price 10011225.81331487 and the
    slippage draw 0 the executed price is 9961169.68424829, further than
    half a unit of the eighth decimal below the quoted price times 0.995,
    so further than that from the quoted price times [1 + s] for every [s]
    between -0.005 and 0.002. *)
Lemma executeSwap64_outside_band :
  let swap :=
    DexRouter64.executeSwap SOL BONK 1.5 Raydium price_m swap_draws_floor in
  price_m = Binary64.round 10011225.81331487
  /\ is_random (DexRouter.u_slippage swap_draws_floor)
  /\ executedPrice swap = Binary64.round 9961169.68424829
  /\ forall s, - 0.005 <= s -> s <= 0.002 ->
       1 # 200000000 < Qabs (executedPrice swap - price_m * (1 + s)).
Proof.
  cbv zeta.
  assert (E : executedPrice
                (DexRouter64.executeSwap SOL BONK 1.5 Raydium price_m swap_draws_floor)
              = 5347862252969131 # 536870912) by (vm_compute; reflexivity).
  rewrite E. split; [vm_compute; reflexivity|].
  split; [split; vm_compute; (reflexivity || discriminate)|].
  split; [vm_compute; reflexivity|].
  intros s Hs _. unfold price_m.
  rewrite Qabs_neg by lra. lra.
Qed.

End RoutingClaims64.

Section Reasons64.
Import RoutingSpec RoutingSpec64.






End Reasons64.

(** ** The fan-out *)

Section FanOut.
Import WebSocketManager.

Variable sock : nat -> Socket.
Variable message : OrderStatus.

(** What the loop of [broadcast] leaves, handle by handle. *)
Lemma fold_visit (l : list nat) (s : LoopState) :
  let s' := fold_left (visit sock message) l s in
  (∀ ws, ws ∈ room s' ↔ ws ∈ room s ∧ ¬ (ws ∈ l ∧ unreachable sock ws = true))
  ∧ (∀ ws, ws ∈ conns s' ↔ ws ∈ conns s ∧ ¬ (ws ∈ l ∧ unreachable sock ws = true))
  ∧ (∀ f, f ∈ wire s' ↔
       f ∈ wire s ∨ (f.1 ∈ l ∧ unreachable sock f.1 = false ∧ f.2 = message)).
Proof.
  revert s. induction l as [|x l IH]; intros s; cbn [fold_left].
  - cbv zeta. split; [|split]; intros x.
    + split; [intros H; split; [exact H|] | intros [H _]; exact H].
      intros [H' _]. apply elem_of_nil in H'. exact H'.
    + split; [intros H; split; [exact H|] | intros [H _]; exact H].
      intros [H' _]. apply elem_of_nil in H'. exact H'.
    + split; [intros H; left; exact H | intros [H|[H _]]; [exact H|]].
      apply elem_of_nil in H. destruct H.
  - specialize (IH (visit sock message s x)). cbv zeta in IH |- *.
    destruct IH as (IHr & IHc & IHw).
    assert (Hv : unreachable sock x = true ∧
                 room (visit sock message s x) = room s ∖ {[x]} ∧
                 conns (visit sock message s x) = conns s ∖ {[x]} ∧
                 wire (visit sock message s x) = wire s
              ∨ unreachable sock x = false ∧
                 room (visit sock message s x) = room s ∧
                 conns (visit sock message s x) = conns s ∧
                 wire (visit sock message s x) = wire s ++ [(x, message)]).
    { unfold visit, unreachable.
      destruct (Nat.eqb (readyState (sock x)) 1); cbn;
        [destruct (send_raises (sock x)); cbn|]; auto. }
    split; [|split].
    + intros ws. rewrite IHr.
      destruct Hv as [(Hu & -> & _ & _)|(Hu & -> & _ & _)].
      * rewrite elem_of_difference, elem_of_singleton, elem_of_cons.
        split; [intros ((? & ?) & ?)|intros (? & ?)].
        -- split; [assumption|]. intros ([->|?] & ?); tauto.
        -- repeat split; [assumption| |]; [intros ->|]; tauto.
      * rewrite elem_of_cons. split; intros (? & Hn); (split; [assumption|]).
        -- intros ([->|?] & ?); [congruence|tauto].
        -- tauto.
    + intros ws. rewrite IHc.
      destruct Hv as [(Hu & _ & -> & _)|(Hu & _ & -> & _)].
      * rewrite elem_of_difference, elem_of_singleton, elem_of_cons.
        split; [intros ((? & ?) & ?)|intros (? & ?)].
        -- split; [assumption|]. intros ([->|?] & ?); tauto.
        -- repeat split; [assumption| |]; [intros ->|]; tauto.
      * rewrite elem_of_cons. split; intros (? & Hn); (split; [assumption|]).
        -- intros ([->|?] & ?); [congruence|tauto].
        -- tauto.
    + intros [ws msg]. rewrite IHw. cbn [fst snd].
      destruct Hv as [(Hu & _ & _ & ->)|(Hu & _ & _ & ->)].
      * rewrite elem_of_cons. split; [tauto|].
        intros [?|([->|?] & ? & ?)]; [tauto|congruence|tauto].
      * rewrite elem_of_app, list_elem_of_singleton, elem_of_cons.
        split.
        -- intros [[?|Heq]|?]; [tauto| |tauto].
           inversion Heq; subst. tauto.
        -- intros [?|([->|?] & ? & ->)]; tauto.
Qed.

(** The manager that [broadcast] leaves when the room has members. *)
Lemma broadcast_nonempty o m r :
  rooms m !! o = Some r → size r ≠ 0%nat →
  ∃ r' : gset nat,
    rooms (fst (broadcast sock o message m)) = <[o := r']> (rooms m)
    ∧ (∀ ws, ws ∈ r' ↔ ws ∈ r ∧ unreachable sock ws = false)
    ∧ (∀ ws, ws ∈ allConnections (fst (broadcast sock o message m)) ↔
             ws ∈ allConnections m ∧ ¬ (ws ∈ r ∧ unreachable sock ws = true))
    ∧ (∀ f, f ∈ (snd (broadcast sock o message m)) ↔
             f.1 ∈ r ∧ unreachable sock f.1 = false ∧ f.2 = message).
Proof.
  intros Hr Hs. unfold broadcast. rewrite Hr.
  destruct (decide (size r = 0%nat)) as [?|_]; [contradiction|].
  cbn [fst snd rooms allConnections].
  set (s0 := {| room := r; conns := allConnections m; sentCount := 0;
                failedCount := 0; wire := [] |}).
  destruct (fold_visit (elements r) s0) as (Hroom & Hconns & Hwire).
  cbv zeta in Hroom, Hconns, Hwire.
  eexists. split; [reflexivity|]. split; [|split].
  - intros ws. rewrite Hroom. subst s0. cbn [room]. rewrite elem_of_elements.
    destruct (unreachable sock ws).
    + split; [intros [H1 H2]; destruct H2; split; [exact H1 | reflexivity]
             | intros [_ H]; discriminate].
    + split; [intros [H1 _]; split; [exact H1 | reflexivity]
             | intros [H1 _]; split; [exact H1 | intros [_ H]; discriminate]].
  - intros ws. rewrite Hconns. subst s0. cbn [conns]. rewrite elem_of_elements. tauto.
  - intros f. rewrite Hwire. subst s0. cbn [wire]. rewrite elem_of_elements.
    split; [intros [H|H]; [inversion H | exact H] | tauto].
Qed.

Lemma broadcast_idle o m :
  getRoomClientCount o m = 0%nat → broadcast sock o message m = (m, []).
Proof.
  unfold getRoomClientCount, broadcast. intros H.
  destruct (rooms m !! o) as [r|]; [|reflexivity].
  destruct (decide (size r = 0%nat)); [reflexivity|contradiction].
Qed.

(** A subscriber that is unreachable at send time leaves the room and the
    global connection set; the entry of the room stays in the room map. *)
Lemma broadcast_drops_unreachable o m r ws :
  rooms m !! o = Some r → ws ∈ r → unreachable sock ws = true →
  (ws ∉ allConnections (fst (broadcast sock o message m)))
  ∧ (∃ r', rooms (fst (broadcast sock o message m)) !! o = Some r' ∧ ws ∉ r').
Proof.
  intros Hr Hin Hu.
  assert (Hs : size r ≠ 0%nat).
  { intros Hz. apply size_empty_inv in Hz. set_solver. }
  destruct (broadcast_nonempty o m r Hr Hs) as (r' & Hrooms & Hr' & Hall & _).
  split.
  - rewrite Hall. tauto.
  - exists r'. rewrite Hrooms, lookup_insert_eq. split; [reflexivity|].
    rewrite Hr'. intros [_ ?]. congruence.
Qed.

(** C9.  For an order with no subscriber (no room, or an empty room),
    [broadcast] returns normally, sends nothing and leaves the manager
    unchanged; the room count stays 0 when there is no room. *)
Theorem broadcast_without_subscribers o m :
  getRoomClientCount o m = 0%nat →
  broadcast sock o message m = (m, [])
  ∧ (getRoomCount m = 0%nat → getRoomCount (fst (broadcast sock o message m)) = 0%nat).
Proof.
  intros H. rewrite (broadcast_idle o m H). split; [reflexivity|]. intros Hc. exact Hc.
Qed.

Lemma broadcast_tracked o m :
  rooms_tracked m →
  (∀ r ws, rooms m !! o = Some r → ws ∈ r → unreachable sock ws = true →
     only_in o ws m) →
  rooms_tracked (fst (broadcast sock o message m)).
Proof.
  intros Hm Ho.
  destruct (rooms m !! o) as [r|] eqn:Er.
  2:{ unfold broadcast. rewrite Er. exact Hm. }
  destruct (decide (size r = 0%nat)) as [Hz|Hz].
  { unfold broadcast. rewrite Er. destruct (decide (size r = 0%nat)); [exact Hm|contradiction]. }
  destruct (broadcast_nonempty o m r Er Hz) as (r' & Hrooms & Hr' & Hall & _).
  intros o' r'' ws. rewrite Hrooms, Hall.
  destruct (decide (o = o')) as [->|Hne].
  - rewrite lookup_insert_eq. intros [= <-] Hin. apply Hr' in Hin.
    destruct Hin as [Hin Hu]. split; [eapply Hm; eauto|].
    intros [_ ?]. congruence.
  - rewrite lookup_insert_ne by assumption. intros Hl Hin.
    split; [eapply Hm; eauto|].
    intros [Hin' Hu]. apply Hne. symmetry.
    eapply (Ho r ws eq_refl Hin' Hu); eauto.
Qed.

(** A broadcast that drops a handle which another room holds breaks the
    invariant. *)
Lemma broadcast_tracked_only_in o m :
  rooms_tracked (fst (broadcast sock o message m)) →
  ∀ r ws, rooms m !! o = Some r → ws ∈ r → unreachable sock ws = true →
    only_in o ws m.
Proof.
  intros H r ws Hr Hin Hu o' r' Hl' Hin'.
  destruct (decide (o' = o)) as [|Hne]; [assumption|]. exfalso.
  assert (Hs : size r ≠ 0%nat).
  { intros Hz. apply size_empty_inv in Hz. set_solver. }
  destruct (broadcast_nonempty o m r Hr Hs) as (r1 & Hrooms & _ & Hall & _).
  assert (Hl : rooms (fst (broadcast sock o message m)) !! o' = Some r').
  { rewrite Hrooms, lookup_insert_ne by congruence. exact Hl'. }
  specialize (H o' r' ws Hl Hin'). apply Hall in H.
  destruct H as [_ H]. apply H. split; assumption.
Qed.

End FanOut.

Section Rooms.
Import WebSocketManager.
Local Open Scope nat_scope.

Lemma empty_tracked : rooms_tracked empty.
Proof. intros o r ws H. cbn in H. rewrite lookup_empty in H. discriminate. Qed.

Lemma joinRoom_tracked o ws m :
  rooms_tracked m → rooms_tracked (joinRoom o ws m).
Proof.
  intros Hm o' r' ws'. unfold joinRoom.
  cbn [rooms allConnections]. cbv zeta.
  destruct (decide (o = o')) as [->|Hne].
  - rewrite lookup_insert_eq. intros [= <-] Hin.
    apply elem_of_union in Hin. destruct Hin as [Hin|Hin]; [|set_solver].
    apply elem_of_union_l.
    destruct (rooms m !! o') as [r|] eqn:E.
    + rewrite E in Hin. cbn in Hin. eapply Hm; eauto.
    + rewrite lookup_insert_eq in Hin. cbn in Hin. set_solver.
  - rewrite lookup_insert_ne by assumption.
    destruct (rooms m !! o) eqn:E.
    + intros H Hin. apply elem_of_union_l. eapply Hm; eauto.
    + rewrite lookup_insert_ne by assumption.
      intros H Hin. apply elem_of_union_l. eapply Hm; eauto.
Qed.

Lemma leaveRoom_tracked o ws m :
  rooms_tracked m → only_in o ws m →
  rooms_tracked (leaveRoom o ws m).
Proof.
  intros Hm Ho o' r' ws'. unfold leaveRoom.
  cbn [rooms allConnections]. cbv zeta.
  intros Hl Hin. rewrite elem_of_difference, elem_of_singleton.
  destruct (decide (o = o')) as [->|Hne].
  - destruct (rooms m !! o') as [r|] eqn:E.
    + destruct (decide (size (r ∖ {[ws]}) = 0%nat)).
      * rewrite lookup_delete_eq in Hl. discriminate.
      * rewrite lookup_insert_eq in Hl. injection Hl as <-.
        apply elem_of_difference in Hin. destruct Hin as [Hin Hnot].
        split; [eapply Hm; eauto | set_solver].
    + rewrite E in Hl. discriminate.
  - assert (Hl' : rooms m !! o' = Some r').
    { destruct (rooms m !! o) as [r|] eqn:E; [|exact Hl].
      destruct (decide (size (r ∖ {[ws]}) = 0%nat)).
      - rewrite lookup_delete_ne in Hl by assumption. exact Hl.
      - rewrite lookup_insert_ne in Hl by assumption. exact Hl. }
    split; [eapply Hm; eauto|].
    intros ->. apply Hne. symmetry. eapply Ho; eauto.
Qed.

(** [leaveRoom] for a handle which another room holds breaks the invariant. *)
Lemma leaveRoom_tracked_only_in o ws m :
  rooms_tracked (leaveRoom o ws m) → only_in o ws m.
Proof.
  intros H o' r Hl Hin.
  destruct (decide (o' = o)) as [|Hne]; [assumption|]. exfalso.
  assert (Hl' : rooms (leaveRoom o ws m) !! o' = Some r).
  { unfold leaveRoom. cbn [rooms]. cbv zeta.
    destruct (rooms m !! o) as [r0|]; [|exact Hl].
    destruct (decide (size (r0 ∖ {[ws]}) = 0)).
    - rewrite lookup_delete_ne by congruence. exact Hl.
    - rewrite lookup_insert_ne by congruence. exact Hl. }
  specialize (H o' r ws Hl' Hin). unfold leaveRoom in H.
  cbn [allConnections] in H. set_solver.
Qed.

(** C10, amended.  While every handle of every room is in the global
    connection set, an operation keeps it so exactly when the handles that
    it drops from the global set are in no other room: [joinRoom] and
    [cleanup] always, [leaveRoom] when its handle is in no other room,
    [broadcast] when the unreachable members of the room are in no other
    room. *)
Theorem rooms_tracked_preserved sock op m :
  rooms_tracked m →
  (rooms_tracked (apply sock op m) ↔ one_room_per_handle sock op m).
Proof.
  intros Hm.
  destruct op as [o ws|o ws|o msg|]; cbn [apply one_room_per_handle].
  - split; [intros _; exact I | intros _; apply joinRoom_tracked; exact Hm].
  - split; [apply leaveRoom_tracked_only_in | apply leaveRoom_tracked; exact Hm].
  - split; [apply broadcast_tracked_only_in | apply broadcast_tracked; exact Hm].
  - split; [intros _; exact I | intros _; apply empty_tracked].
Qed.

(** C9 at a manager without rooms. *)
Lemma broadcast_without_subscribers_witness :
  getRoomClientCount "order-1" empty = 0%nat
  ∧ (broadcast closed_sockets "order-1" pending_message empty = (empty, [])
     ∧ (getRoomCount empty = 0%nat →
        getRoomCount (fst (broadcast closed_sockets "order-1" pending_message empty)) = 0%nat)).
Proof.
  split; [reflexivity|].
  exact (broadcast_without_subscribers closed_sockets pending_message
           "order-1" empty eq_refl).
Defined.

(** Where a handle of a room comes from after [joinRoom]. *)
Lemma joinRoom_member o ws m o' r' ws' :
  rooms (joinRoom o ws m) !! o' = Some r' → ws' ∈ r' →
  (o' = o ∧ ws' = ws) ∨ (∃ r, rooms m !! o' = Some r ∧ ws' ∈ r).
Proof.
  unfold joinRoom. cbn [rooms]. cbv zeta.
  destruct (decide (o = o')) as [->|Hne].
  - rewrite lookup_insert_eq. intros [= <-] Hin.
    apply elem_of_union in Hin. destruct Hin as [Hin|Hin].
    + destruct (rooms m !! o') as [r|] eqn:E.
      * rewrite E in Hin. cbn in Hin. right. exists r. split; [reflexivity | exact Hin].
      * rewrite lookup_insert_eq in Hin. cbn in Hin. set_solver.
    + left. split; [reflexivity | set_solver].
  - rewrite lookup_insert_ne by assumption. intros Hl Hin. right. exists r'.
    split; [|exact Hin].
    destruct (rooms m !! o); [exact Hl|].
    rewrite lookup_insert_ne in Hl by assumption. exact Hl.
Qed.

Lemma shared_watchers_7 : only_in "order-1" 7 shared_watchers.
Proof.
  intros o' r' Hl Hin. unfold shared_watchers in Hl.
  destruct (joinRoom_member _ _ _ _ _ _ Hl Hin) as [[_ H]|(r1 & Hl1 & Hin1)];
    [discriminate H|].
  destruct (joinRoom_member _ _ _ _ _ _ Hl1 Hin1) as [[_ H]|(r2 & Hl2 & Hin2)];
    [discriminate H|].
  unfold one_watcher in Hl2.
  destruct (joinRoom_member _ _ _ _ _ _ Hl2 Hin2) as [[H _]|(r3 & Hl3 & _)];
    [exact H|].
  cbn in Hl3. rewrite lookup_empty in Hl3. discriminate Hl3.
Qed.

(** C10, amended, at a broadcast to a room of two: socket 7, which is
    closed, watches this room alone, and socket 8, which is open, watches
    a second room too. *)
Lemma rooms_tracked_preserved_witness :
  rooms_tracked shared_watchers
  ∧ one_room_per_handle sockets_7_closed
      (BroadcastTo "order-1" pending_message) shared_watchers
  ∧ rooms_tracked
      (apply sockets_7_closed (BroadcastTo "order-1" pending_message) shared_watchers).
Proof.
  assert (H1 : rooms_tracked shared_watchers).
  { repeat apply joinRoom_tracked. apply empty_tracked. }
  assert (H2 : one_room_per_handle sockets_7_closed
                 (BroadcastTo "order-1" pending_message) shared_watchers).
  { intros r ws _ _ Hu.
    assert (ws = 7) as ->.
    { unfold unreachable, sockets_7_closed in Hu.
      destruct (Nat.eqb ws 7) eqn:E; [apply Nat.eqb_eq, E | discriminate Hu]. }
    apply shared_watchers_7. }
  split; [exact H1|]. split; [exact H2|].
  exact (proj2 (rooms_tracked_preserved sockets_7_closed
                  (BroadcastTo "order-1" pending_message) shared_watchers H1) H2).
Defined.

(** C6 at its failing input: the only subscriber of a room is closed when
    a message is broadcast.  It leaves the room and the global connection
    set, yet the emptied room stays in the room map and is still counted,
    while [leaveRoom] on the same manager removes the room. *)
Theorem broadcast_keeps_emptied_room :
  let m := fst (broadcast closed_sockets "order-1" pending_message one_watcher) in
  unreachable closed_sockets 7 = true
  ∧ rooms one_watcher !! "order-1" = Some {[7]}
  ∧ rooms m !! "order-1" = Some ∅
  ∧ allConnections m = ∅
  ∧ getRoomCount m = 1%nat
  ∧ getRoomCount (leaveRoom "order-1" 7 one_watcher) = 0%nat.
Proof.
  cbv zeta. repeat split; vm_compute; reflexivity.
Qed.

(** C10 fails as stated.  [leaveRoom] for a room that the handle is not in,
    and [broadcast] to one of the two rooms of a closed handle, drop the
    handle from the global connection set while a room still holds it. *)
Lemma rooms_tracked_broken :
  (rooms_tracked one_watcher
   ∧ ¬ rooms_tracked (apply closed_sockets (LeaveRoom "order-2" 7) one_watcher))
  ∧ (let m := joinRoom "order-2" 7 one_watcher in
     rooms_tracked m
     ∧ ¬ rooms_tracked (apply closed_sockets (BroadcastTo "order-1" pending_message) m)).
Proof.
  assert (H1 : rooms_tracked one_watcher).
  { apply joinRoom_tracked, empty_tracked. }
  split; [split; [exact H1|] | cbv zeta; split; [apply joinRoom_tracked, H1|]].
  - intros H. specialize (H "order-1" {[7]} 7 eq_refl).
    assert (Hin : 7 ∈ ({[7]} : gset nat)) by (apply elem_of_singleton; reflexivity).
    apply H in Hin. vm_compute in Hin. discriminate Hin.
  - intros H. specialize (H "order-2" {[7]} 7 eq_refl).
    assert (Hin : 7 ∈ ({[7]} : gset nat)) by (apply elem_of_singleton; reflexivity).
    apply H in Hin. vm_compute in Hin. discriminate Hin.
Qed.

End Rooms.

(** ** The order worker *)

Section Worker.
Import OrderWorker WorkerSpec.

#[local] Opaque routing_of swap_of WebSocketManager.broadcast.

(** Case analysis on the outcomes of the store calls an attempt makes. *)
Ltac next_store_outcome :=
  match goal with
  | |- context [match ?so with nil => _ | cons _ _ => _ end] =>
      is_var so; destruct so as [|[?|] ?]; cbn
  end.

Ltac run_body :=
  unfold outcome_of, world_of, events_of, processOrder, processOrder_try,
    processOrder_catch, updateOrderStatus,
    try_catch, bind, prisma_order_update, now, wsManager_broadcast, throw, ret.

Ltac run_attempt job d w :=
  run_body;
  destruct (success (swap_of job d)) eqn:?;
  destruct (retries_exhausted job) eqn:?;
  destruct w as [so ? ? ? ?]; cbn;
  repeat next_store_outcome.

Ltac refute_rejection :=
  repeat match goal with
    | H : store_accepts_all _ |- _ => unfold store_accepts_all in H; cbn in H
    | H : Forall _ (_ :: _) |- _ => inversion H; clear H; subst
    end;
  try discriminate.

Lemma emitted_when_store_accepts job d w :
  store_accepts_all w ->
  emitted (events_of (processOrder job d w)) =
    take 5 (success_sequence job d) ++
    (if success (swap_of job d) then drop 5 (success_sequence job d)
     else if retries_exhausted job
          then [(failed, Some (failed_payload swap_failed))]
          else []).
Proof.
  intros Hall. run_attempt job d w; refute_rejection; reflexivity.
Qed.

Ltac prefix_of_length n :=
  solve [ exists n, []; split; [reflexivity | left; reflexivity]
        | exists n; eexists; split;
          [reflexivity | right; split; [lia | split; [reflexivity | eexists; reflexivity]]] ].

Lemma emitted_prefix job d w :
  exists (n : nat) tail,
    emitted (events_of (processOrder job d w)) =
      take n (success_sequence job d) ++ tail
    /\ (tail = [] \/
        ((n < 6)%nat /\ retries_exhausted job = true /\
         exists text, tail = [(failed, Some (failed_payload text))])).
Proof.
  run_attempt job d w;
    first [ prefix_of_length 0%nat | prefix_of_length 1%nat
          | prefix_of_length 2%nat | prefix_of_length 3%nat
          | prefix_of_length 4%nat | prefix_of_length 5%nat
          | prefix_of_length 6%nat ].
Qed.

Lemma emitted_starts_pending job d w :
  accepts_next w = true ->
  take 1 (emitted (events_of (processOrder job d w))) = [(pending, None)].
Proof.
  intros Hacc. run_attempt job d w; try discriminate Hacc; reflexivity.
Qed.

Lemma try_never_failed job d w :
  mentions_failed (events_of (processOrder_try job d w)) = false.
Proof.
  run_body. destruct (success (swap_of job d)); destruct w as [so ? ? ? ?]; cbn;
    repeat next_store_outcome; reflexivity.
Qed.

Lemma persisted_first_processOrder job d w :
  persisted_first None (events_of (processOrder job d w)) = true.
Proof.
  run_attempt job d w; rewrite ?String.eqb_refl; reflexivity.
Qed.

(** C2 fails as stated.  On the last attempt, when the store rejects the
    write of the first [routing] status, the messages are [pending] and
    then [failed]: not the five-message sequence and a terminal message. *)
Lemma processOrder_other_ordering :
  let w := world_with [None; Some (ErrorObject "db down")] in
  let l := emitted (events_of (processOrder last_attempt draws_ok w)) in
  l = [(pending, None); (failed, Some (failed_payload "db down"))]
  /\ ~ (exists terminal, l = take 5 (success_sequence last_attempt draws_ok) ++ [terminal]).
Proof.
  cbv zeta. split; [vm_compute; reflexivity|].
  intros [terminal H]. vm_compute in H. discriminate H.
Qed.

(** C2, amended.  When the store accepts every write of the attempt, the
    messages are exactly [pending], [routing], [routing] with both quote
    prices and the venue, [building], [submitted], followed by [confirmed]
    (venue, transaction reference, executed price, both quote prices) when
    the swap succeeds, by [failed] with the error text when it fails on the
    last attempt, and by nothing when it fails on an earlier attempt.  Every
    attempt whose first write is accepted starts again from [pending].  In
    general the messages are a prefix of the success sequence, followed by
    at most one [failed] message, which only a last attempt sends and never
    after [confirmed]. *)
Theorem processOrder_emissions job d w :
  let l := emitted (events_of (processOrder job d w)) in
  (store_accepts_all w ->
     l = take 5 (success_sequence job d) ++
         (if success (swap_of job d) then drop 5 (success_sequence job d)
          else if retries_exhausted job
               then [(failed, Some (failed_payload swap_failed))]
               else []))
  /\ (accepts_next w = true -> take 1 l = [(pending, None)])
  /\ (exists (n : nat) tail,
        l = take n (success_sequence job d) ++ tail
        /\ (tail = [] \/
            ((n < 6)%nat /\ retries_exhausted job = true /\
             exists text, tail = [(failed, Some (failed_payload text))]))).
Proof.
  cbv zeta. split; [|split].
  - apply emitted_when_store_accepts.
  - apply emitted_starts_pending.
  - apply emitted_prefix.
Qed.

(** C2, amended, at a last attempt whose swap fails. *)
Lemma processOrder_emissions_witness :
  store_accepts_all (world_with []) /\
  emitted (events_of (processOrder last_attempt draws_swap_fails (world_with []))) =
    take 5 (success_sequence last_attempt draws_swap_fails) ++
    [(failed, Some (failed_payload swap_failed))].
Proof.
  assert (H : store_accepts_all (world_with [])) by constructor.
  split; [exact H|].
  exact (proj1 (processOrder_emissions last_attempt draws_swap_fails (world_with [])) H).
Defined.

(** C3 fails as stated.  On the last attempt, when the store also rejects
    the write of the [failed] status, nothing is written or broadcast as
    failed, and the error that reaches the queue is that of the rejected
    write, not the one that was caught. *)
Lemma failed_status_lost_when_store_rejects :
  let w := world_with [None; Some (ErrorObject "db down");
                       Some (ErrorObject "db still down")] in
  (maxAttempts last_attempt <= attemptsMade last_attempt + 1)%nat
  /\ outcome_of (processOrder_try last_attempt draws_ok w) = Raised (ErrorObject "db down")
  /\ mentions_failed (events_of (processOrder last_attempt draws_ok w)) = false
  /\ outcome_of (processOrder last_attempt draws_ok w) = Raised (ErrorObject "db still down").
Proof.
  cbv zeta. split; [vm_compute; lia|]. repeat split; vm_compute; reflexivity.
Qed.

Lemma retries_exhausted_true job :
  retries_exhausted job = true <-> (maxAttempts job <= attemptsMade job + 1)%nat.
Proof. unfold retries_exhausted. apply Nat.leb_le. Qed.

Lemma retries_exhausted_false job :
  retries_exhausted job = false <-> (attemptsMade job + 1 < maxAttempts job)%nat.
Proof. unfold retries_exhausted. apply Nat.leb_gt. Qed.

Lemma mentions_failed_app l1 l2 :
  mentions_failed (l1 ++ l2) = mentions_failed l1 || mentions_failed l2.
Proof. unfold mentions_failed. apply existsb_app. Qed.

(** C3, amended.  When the [try] block raises, [processOrder] always ends
    by raising to the queue.  Before the last attempt it adds no event and
    re-raises the error it caught.  On the last attempt (attempt number at
    least [job.opts.attempts || 3]) it writes the [failed] status with the
    error text: when the store accepts that write, it broadcasts the status
    and re-raises the error it caught; when the store rejects that write,
    it adds no event and raises the error of the rejection.  A [failed]
    status is written or broadcast if and only if the attempt is the last
    one and the store accepts the write. *)
Theorem processOrder_failure_policy job d w e :
  outcome_of (processOrder_try job d w) = Raised e ->
  let tried := events_of (processOrder_try job d w) in
  let w1 := world_of (processOrder_try job d w) in
  let o := job_orderId (job_data job) in
  let result := processOrder job d w in
  (exists e', outcome_of result = Raised e')
  /\ ((attemptsMade job + 1 < maxAttempts job)%nat ->
        outcome_of result = Raised e /\ events_of result = tried)
  /\ ((maxAttempts job <= attemptsMade job + 1)%nat -> accepts_next w1 = true ->
        outcome_of result = Raised e
        /\ events_of result = tried ++ failed_emission o (errorMessage_of e) (clock w1))
  /\ ((maxAttempts job <= attemptsMade job + 1)%nat ->
      forall e' rest, store_outcomes w1 = Some e' :: rest ->
        outcome_of result = Raised e' /\ events_of result = tried)
  /\ (mentions_failed (events_of result) = true <->
        (maxAttempts job <= attemptsMade job + 1)%nat /\ accepts_next w1 = true).
Proof.
  intros Hraised. cbv zeta.
  pose proof (try_never_failed job d w) as Hclean.
  unfold processOrder, try_catch.
  destruct (processOrder_try job d w) as [[r w1] l1].
  unfold outcome_of, world_of, events_of in *. cbn [fst snd] in *. subst r.
  rewrite <- retries_exhausted_true, <- retries_exhausted_false.
  unfold processOrder_catch, updateOrderStatus, bind, prisma_order_update, now,
    wsManager_broadcast, throw, ret, accepts_next, failed_emission.
  destruct (retries_exhausted job); destruct w1 as [so ? ? ? ?];
    [destruct so as [|[e'|] so]|]; cbn -[mentions_failed];
    rewrite ?mentions_failed_app, ?Hclean, ?app_nil_r; cbn;
    (split; [eexists; reflexivity|]);
    (split; [intros H; try discriminate H; split; reflexivity|]);
    (split; [intros H1 H2; try discriminate H1; try discriminate H2;
             split; reflexivity|]);
    (split; [intros H1 e1 rest H2; try discriminate H1; try discriminate H2;
             try (injection H2 as -> _); split; reflexivity|]);
    (split; [intros H; try discriminate H; split; reflexivity
            | intros [H1 H2]; try discriminate H1; try discriminate H2; reflexivity]).
Qed.

(** C3, amended, at a last attempt whose swap fails: with a store that
    accepts every write the [failed] status is written and broadcast; with
    a store that rejects the sixth write, that of the [failed] status, the
    error of the rejection is raised. *)
Lemma processOrder_failure_policy_witness :
  let w := world_with [] in
  let w' := world_with [None; None; None; None; None; Some (ErrorObject "db down")] in
  (outcome_of (processOrder_try last_attempt draws_swap_fails w) =
     Raised (ErrorObject swap_failed)
   /\ mentions_failed
        (events_of (processOrder last_attempt draws_swap_fails w)) = true)
  /\ (outcome_of (processOrder_try last_attempt draws_swap_fails w') =
        Raised (ErrorObject swap_failed)
      /\ outcome_of (processOrder last_attempt draws_swap_fails w') =
           Raised (ErrorObject "db down")
      /\ events_of (processOrder last_attempt draws_swap_fails w') =
           events_of (processOrder_try last_attempt draws_swap_fails w')).
Proof.
  cbv zeta.
  assert (H : outcome_of (processOrder_try last_attempt draws_swap_fails (world_with [])) =
              Raised (ErrorObject swap_failed)) by (vm_compute; reflexivity).
  assert (H' : outcome_of (processOrder_try last_attempt draws_swap_fails
                 (world_with [None; None; None; None; None; Some (ErrorObject "db down")])) =
               Raised (ErrorObject swap_failed)) by (vm_compute; reflexivity).
  split; (split; [assumption|]).
  - apply (proj2 (proj2 (proj2 (proj2
             (processOrder_failure_policy last_attempt draws_swap_fails (world_with [])
                (ErrorObject swap_failed) H))))).
    split; [vm_compute; lia | vm_compute; reflexivity].
  - apply (proj1 (proj2 (proj2 (proj2
             (processOrder_failure_policy last_attempt draws_swap_fails _
                (ErrorObject swap_failed) H')))) ltac:(vm_compute; lia)
             (ErrorObject "db down") []).
    vm_compute. reflexivity.
Defined.

(** C4 fails as stated.  The [building] emission writes the status alone
    to the store and then broadcasts it with the venue and both quote
    prices: the fields broadcast are not the fields persisted. *)
Lemma broadcast_fields_differ :
  let l := events_of (processOrder first_attempt draws_ok (world_with [])) in
  all_same_fields l = false
  /\ l !! 6%nat = Some (Persisted "order-1" (update_of building None))
  /\ (exists message, l !! 7%nat = Some (Broadcast "order-1" message)
        /\ status message = building
        /\ data message = Some (routed_payload (routing_of first_attempt draws_ok))).
Proof.
  cbv zeta. split; [vm_compute; reflexivity|]. split; [vm_compute; reflexivity|].
  eexists. split; [vm_compute; reflexivity|]. split; vm_compute; reflexivity.
Qed.

(** C4, amended.  [updateOrderStatus] writes the status, with the fields of
    its [data] argument, to the store and only then broadcasts the status,
    with the fields of its [wsData] argument; when the store rejects the
    write nothing is broadcast.  In every run of [processOrder] each
    broadcast comes right after the accepted write of the same status for
    the same order. *)
Theorem updateOrderStatus_persists_first o s data wsData w :
  match store_outcomes w with
  | Some e :: _ =>
      outcome_of (updateOrderStatus o s data wsData w) = Raised e
      /\ events_of (updateOrderStatus o s data wsData w) = []
  | _ =>
      outcome_of (updateOrderStatus o s data wsData w) = Returned tt
      /\ events_of (updateOrderStatus o s data wsData w) =
           [ Persisted o (update_of s data);
             Broadcast o (WebSocketManager.createStatusMessage o s wsData (clock w)) ]
  end
  /\ forall job d, persisted_first None (events_of (processOrder job d w)) = true.
Proof.
  split; [|intros job d; apply persisted_first_processOrder].
  unfold updateOrderStatus, bind, prisma_order_update, now, wsManager_broadcast,
    outcome_of, events_of.
  destruct w as [so ? ? ? ?]; cbn. destruct so as [|[e|] so]; cbn; split; reflexivity.
Qed.

End Worker.

(** * Further properties *)

(** ** Further properties of the router *)

Section MoreRouting.
Import DexRouter RoutingSpec MoreSpec.






End MoreRouting.

Section MoreQuotes.
Import DexRouter RoutingSpec MoreSpec.















End MoreQuotes.

Section MoreSelection.
Import DexRouter RoutingSpec MoreSpec.






Lemma append_inj_r (p s t : string) :
  String.append p s = String.append p t -> s = t.
Proof.
  induction p as [|c p IH]; intros H; [exact H|].
  change (String c (String.append p s) = String c (String.append p t)) in H.
  injection H as H. exact (IH H).
Qed.

Lemma length_append (s t : string) :
  String.length (String.append s t) = (String.length s + String.length t)%nat.
Proof.
  induction s as [|c s IH]; [reflexivity|].
  change (String.append (String c s) t) with (String c (String.append s t)).
  cbn [String.length]. rewrite IH. reflexivity.
Qed.

(** X8.  A transaction reference is the three-letter tag of the venue
    followed by the identifier from [nanoid]: it is three characters longer
    than the identifier, and two swaps have the same reference exactly when
    they have the same venue and the same identifier. *)
Theorem executeSwap_txHash tokenIn tokenOut amount dex quotedPrice r
    tokenIn' tokenOut' amount' dex' quotedPrice' r' :
  let h := txHash (executeSwap tokenIn tokenOut amount dex quotedPrice r) in
  let h' := txHash (executeSwap tokenIn' tokenOut' amount' dex' quotedPrice' r') in
  String.length h = (3 + String.length (nanoid44 r))%nat
  /\ String.prefix (dex_tag dex) h = true
  /\ (h = h' <-> dex = dex' /\ nanoid44 r = nanoid44 r').
Proof.
  cbv zeta. cbn [txHash executeSwap]. split; [|split].
  - rewrite length_append. destruct dex; reflexivity.
  - apply prefix_append.
  - split.
    + destruct dex, dex'; intros H; vm_compute in H;
        try discriminate H; injection H as H; split; try reflexivity; exact H.
    + intros [-> ->]. reflexivity.
Qed.

End MoreSelection.

Section MoreRooms.
Import WebSocketManager MoreSpec.
Local Open Scope nat_scope.

Lemma manager_eq (a b : WebSocketManager.t) :
  rooms a = rooms b → allConnections a = allConnections b → a = b.
Proof. destruct a, b. cbn. intros -> ->. reflexivity. Qed.

Lemma size_zero_empty (r : gset nat) : size r = 0 ↔ r = ∅.
Proof.
  split; [intros H; apply leibniz_equiv, size_empty_inv, H|].
  intros ->. apply size_empty.
Qed.

(** X11.  [leaveRoom] is idempotent: leaving a second time changes nothing,
    whether or not the room or the subscriber was there. *)
Theorem leaveRoom_idempotent o ws m :
  leaveRoom o ws (leaveRoom o ws m) = leaveRoom o ws m.
Proof.
  apply manager_eq.
  - unfold leaveRoom at 1. cbn [rooms allConnections]. cbv zeta.
    unfold leaveRoom. cbn [rooms]. cbv zeta.
    destruct (rooms m !! o) as [r|] eqn:E.
    + destruct (decide (size (r ∖ {[ws]}) = 0)) as [Hz|Hz].
      * rewrite lookup_delete_eq. reflexivity.
      * rewrite lookup_insert_eq.
        replace (r ∖ {[ws]} ∖ {[ws]}) with (r ∖ {[ws]}) by set_solver.
        destruct (decide (size (r ∖ {[ws]}) = 0)); [contradiction|].
        apply insert_insert_eq.
    + rewrite E. reflexivity.
  - unfold leaveRoom. cbn [allConnections]. set_solver.
Qed.

Lemma joinRoom_rooms o ws m :
  rooms (joinRoom o ws m) =
    <[o := default ∅ (rooms m !! o) ∪ {[ws]}]> (rooms m).
Proof.
  unfold joinRoom. cbn [rooms]. cbv zeta.
  destruct (rooms m !! o) as [r|] eqn:E.
  - rewrite E. reflexivity.
  - rewrite lookup_insert_eq. cbn. apply insert_insert_eq.
Qed.

(** X12.  After [joinRoom] the subscriber is in the room and in the global
    connection set; the room grows by one when the subscriber was not in
    it and keeps its size otherwise; joining a second time changes
    nothing. *)
Theorem joinRoom_membership o ws m :
  (∃ r, rooms (joinRoom o ws m) !! o = Some r ∧ ws ∈ r)
  ∧ ws ∈ allConnections (joinRoom o ws m)
  ∧ getRoomClientCount o (joinRoom o ws m) =
      (if decide (ws ∈ default ∅ (rooms m !! o))
       then getRoomClientCount o m
       else S (getRoomClientCount o m))
  ∧ joinRoom o ws (joinRoom o ws m) = joinRoom o ws m.
Proof.
  split; [|split; [|split]].
  - rewrite joinRoom_rooms, lookup_insert_eq. eexists. split; [reflexivity|].
    set_solver.
  - unfold joinRoom. cbn [allConnections]. set_solver.
  - unfold getRoomClientCount. rewrite joinRoom_rooms, lookup_insert_eq.
    destruct (rooms m !! o) as [r|]; cbn [default from_option id].
    + destruct (decide (ws ∈ r)) as [Hin|Hout].
      * f_equal. set_solver.
      * rewrite size_union by set_solver. rewrite size_singleton. lia.
    + destruct (decide (ws ∈ (∅ : gset nat))) as [Hin|_]; [set_solver|].
      rewrite union_empty_l_L. apply size_singleton.
  - apply manager_eq.
    + rewrite !joinRoom_rooms. rewrite lookup_insert_eq. cbn [default from_option id].
      rewrite insert_insert_eq. f_equal. set_solver.
    + unfold joinRoom. cbn [allConnections]. set_solver.
Qed.

(** X13.  Joining and then leaving restores the manager, when the
    subscriber was not tracked and the room, if there is one, did not hold
    it and was not empty. *)
Theorem joinRoom_leaveRoom o ws m :
  ws ∉ allConnections m →
  (∀ r, rooms m !! o = Some r → (ws ∉ r) ∧ r ≠ ∅) →
  leaveRoom o ws (joinRoom o ws m) = m.
Proof.
  intros Hall Hroom. apply manager_eq.
  - unfold leaveRoom. cbn [rooms]. cbv zeta.
    rewrite joinRoom_rooms, lookup_insert_eq.
    destruct (rooms m !! o) as [r|] eqn:E; cbn [default from_option id].
    + destruct (Hroom r eq_refl) as [Hout Hne].
      replace ((r ∪ {[ws]}) ∖ {[ws]}) with r by set_solver.
      destruct (decide (size r = 0)) as [Hz|_].
      * apply size_zero_empty in Hz. contradiction.
      * rewrite insert_insert_eq. apply insert_id, E.
    + replace ((∅ ∪ {[ws]}) ∖ {[ws]}) with (∅ : gset nat) by set_solver.
      rewrite size_empty. destruct (decide (0 = 0)); [|contradiction].
      rewrite delete_insert_eq. apply delete_id, E.
  - unfold leaveRoom, joinRoom. cbn [allConnections]. set_solver.
Qed.

Lemma joinRoom_leaveRoom_witness :
  (7 ∉ allConnections empty)
  ∧ (∀ r, rooms empty !! "order-1" = Some r → (7 ∉ r) ∧ r ≠ ∅)
  ∧ leaveRoom "order-1" 7 (joinRoom "order-1" 7 empty) = empty.
Proof.
  assert (H1 : 7 ∉ allConnections empty) by (cbn; set_solver).
  assert (H2 : ∀ r, rooms empty !! "order-1" = Some r → (7 ∉ r) ∧ r ≠ ∅).
  { intros r H. cbn in H. rewrite lookup_empty in H. discriminate H. }
  split; [exact H1|]. split; [exact H2|].
  exact (joinRoom_leaveRoom "order-1" 7 empty H1 H2).
Defined.

(** X14.  [joinRoom], [leaveRoom] and [cleanup] never leave an empty room
    in the room map when there was none. *)
Theorem no_empty_room_preserved sock op m :
  no_empty_room m →
  (∀ o message, op ≠ BroadcastTo o message) →
  no_empty_room (apply sock op m).
Proof.
  intros Hm Hop. destruct op as [o ws|o ws|o msg|]; cbn [apply].
  - intros o' r'. rewrite joinRoom_rooms.
    destruct (decide (o = o')) as [->|Hne].
    + rewrite lookup_insert_eq. intros [= <-]. set_solver.
    + rewrite lookup_insert_ne by assumption. apply Hm.
  - intros o' r'. unfold leaveRoom. cbn [rooms]. cbv zeta.
    destruct (rooms m !! o) as [r|] eqn:E; [|apply Hm].
    destruct (decide (size (r ∖ {[ws]}) = 0)) as [Hz|Hz].
    + destruct (decide (o = o')) as [->|Hne].
      * rewrite lookup_delete_eq. discriminate.
      * rewrite lookup_delete_ne by assumption. apply Hm.
    + destruct (decide (o = o')) as [->|Hne].
      * rewrite lookup_insert_eq. intros [= <-] He. apply Hz.
        rewrite He. apply size_empty.
      * rewrite lookup_insert_ne by assumption. apply Hm.
  - destruct (Hop o msg eq_refl).
  - intros o' r' H. cbn in H. rewrite lookup_empty in H. discriminate H.
Qed.

(** X14 at the last subscriber leaving its room: the room is removed. *)
Lemma no_empty_room_preserved_witness :
  no_empty_room one_watcher
  ∧ (∀ o message, LeaveRoom "order-1" 7 ≠ BroadcastTo o message)
  ∧ rooms one_watcher !! "order-1" = Some {[7]}
  ∧ no_empty_room (apply closed_sockets (LeaveRoom "order-1" 7) one_watcher).
Proof.
  assert (H1 : no_empty_room one_watcher).
  { intros o r. unfold one_watcher. rewrite joinRoom_rooms.
    destruct (decide ("order-1" = o)) as [<-|Hne].
    - rewrite lookup_insert_eq. intros [= <-]. set_solver.
    - rewrite lookup_insert_ne by assumption. cbn. rewrite lookup_empty.
      discriminate. }
  assert (H2 : ∀ o message, LeaveRoom "order-1" 7 ≠ BroadcastTo o message)
    by (intros o message; discriminate).
  split; [exact H1|]. split; [exact H2|]. split; [reflexivity|].
  exact (no_empty_room_preserved closed_sockets (LeaveRoom "order-1" 7)
           one_watcher H1 H2).
Defined.

(** X15.  When every room member is tracked, no room has more subscribers
    than there are connections. *)
Theorem room_size_bounded o m :
  rooms_tracked m → getRoomClientCount o m ≤ getConnectionCount m.
Proof.
  intros Hm. unfold getRoomClientCount, getConnectionCount.
  destruct (rooms m !! o) as [r|] eqn:E; [|lia].
  apply subseteq_size. intros ws Hin. eapply Hm; eauto.
Qed.

Lemma room_size_bounded_witness :
  rooms_tracked one_watcher
  ∧ getRoomClientCount "order-1" one_watcher ≤ getConnectionCount one_watcher.
Proof.
  assert (H : rooms_tracked one_watcher).
  { apply joinRoom_tracked, empty_tracked. }
  split; [exact H|]. exact (room_size_bounded "order-1" one_watcher H).
Defined.

End MoreRooms.

Section MoreBroadcast.
Import WebSocketManager MoreSpec.
Local Open Scope nat_scope.

Variable sock : nat → Socket.

(** The frames that the loop of [broadcast] sends, in the order of the
    iteration. *)
Lemma fold_visit_wire message (l : list nat) (s : LoopState) :
  wire (fold_left (visit sock message) l s) =
    wire s ++ map (fun ws => (ws, message))
                (List.filter (fun ws => negb (unreachable sock ws)) l).
Proof.
  revert s. induction l as [|x l IH]; intros s; cbn [fold_left List.filter].
  - cbn. rewrite app_nil_r. reflexivity.
  - rewrite IH. unfold visit, unreachable.
    destruct (Nat.eqb (readyState (sock x)) 1); cbn [negb orb];
      [destruct (send_raises (sock x)); cbn [negb wire map]|cbn [wire]];
      rewrite <- ?app_assoc; reflexivity.
Qed.

Lemma broadcast_frames o message m :
  snd (broadcast sock o message m) =
    map (fun ws => (ws, message))
      (List.filter (fun ws => negb (unreachable sock ws))
         (elements (default ∅ (rooms m !! o)))).
Proof.
  unfold broadcast. destruct (rooms m !! o) as [r|]; cbn [default from_option id].
  - destruct (decide (size r = 0)) as [Hz|Hz].
    + apply size_zero_empty in Hz. subst r. rewrite elements_empty. reflexivity.
    + cbn [snd]. rewrite fold_visit_wire. reflexivity.
  - rewrite elements_empty. reflexivity.
Qed.

Lemma delivered_to_map ws message (l : list nat) :
  NoDup l →
  delivered_to ws
    (map (fun x => (x, message))
       (List.filter (fun x => negb (unreachable sock x)) l)) =
  if decide (ws ∈ l) then
    (if unreachable sock ws then [] else [message])
  else [].
Proof.
  unfold delivered_to. induction 1 as [|x l Hx Hl IH]; cbn [List.filter].
  - destruct (decide (ws ∈ [])) as [Hin|_]; [inversion Hin|reflexivity].
  - assert (Hrest : ws = x →
      map snd (List.filter (fun f => Nat.eqb (fst f) ws)
        (map (fun x => (x, message))
           (List.filter (fun x => negb (unreachable sock x)) l))) = []).
    { intros ->. rewrite IH. destruct (decide (x ∈ l)); [contradiction|reflexivity]. }
    destruct (decide (ws = x)) as [->|Hne].
    + destruct (decide (x ∈ x :: l)) as [_|Hout]; [|exfalso; apply Hout; left].
      destruct (unreachable sock x); cbn [negb map List.filter fst].
      * apply Hrest. reflexivity.
      * rewrite Nat.eqb_refl. cbn [map snd]. rewrite Hrest; reflexivity.
    + assert (Heq : Nat.eqb x ws = false) by (apply Nat.eqb_neq; congruence).
      destruct (negb (unreachable sock x)); cbn [map List.filter fst];
        rewrite ?Heq, IH;
        destruct (decide (ws ∈ l)) as [Hin|Hout];
        destruct (decide (ws ∈ x :: l)) as [Hin'|Hout']; try reflexivity;
        try (exfalso; apply Hout'; right; exact Hin);
        apply elem_of_cons in Hin'; destruct Hin'; congruence.
Qed.

(** X16.  [broadcast] hands the message exactly once to every member of
    the room that is open and whose [send] succeeds, and nothing to any
    other socket. *)
Theorem broadcast_exactly_once o message m ws :
  delivered_to ws (snd (broadcast sock o message m)) =
    if decide (ws ∈ default ∅ (rooms m !! o)) then
      (if unreachable sock ws then [] else [message])
    else [].
Proof.
  rewrite broadcast_frames, delivered_to_map by apply NoDup_elements.
  destruct (decide (ws ∈ elements (default ∅ (rooms m !! o)))) as [H|H];
    destruct (decide (ws ∈ default ∅ (rooms m !! o))) as [H'|H'];
    try reflexivity; apply elem_of_elements in H || rewrite <- elem_of_elements in H';
    contradiction.
Qed.

(** The manager that [broadcast] leaves, in every case. *)
Lemma broadcast_manager o message m :
  (rooms m !! o = None ∧ fst (broadcast sock o message m) = m)
  ∨ (∃ r r' : gset nat,
       rooms m !! o = Some r
       ∧ rooms (fst (broadcast sock o message m)) = <[o := r']> (rooms m)
       ∧ (∀ ws, ws ∈ r' ↔ ws ∈ r ∧ unreachable sock ws = false)
       ∧ (∀ ws, ws ∈ allConnections (fst (broadcast sock o message m)) ↔
                ws ∈ allConnections m ∧ ¬ (ws ∈ r ∧ unreachable sock ws = true))).
Proof.
  destruct (rooms m !! o) as [r|] eqn:E.
  - right. exists r. destruct (decide (size r = 0)) as [Hz|Hz].
    + exists r. unfold broadcast. rewrite E.
      destruct (decide (size r = 0)); [|contradiction]. cbn [fst].
      apply size_zero_empty in Hz. subst r.
      split; [reflexivity|]. split; [symmetry; apply insert_id, E|].
      split; intros ws; set_solver.
    + destruct (broadcast_nonempty sock message o m r E Hz) as (r' & H1 & H2 & H3 & _).
      exists r'. auto.
  - left. split; [reflexivity|]. unfold broadcast. rewrite E. reflexivity.
Qed.

(** X17.  [broadcast] never adds or removes a room and does not touch the
    other rooms; the room it writes to and the global connection set can
    only shrink. *)
Theorem broadcast_keeps_rooms o message m :
  getRoomCount (fst (broadcast sock o message m)) = getRoomCount m
  ∧ (∀ o', o' ≠ o →
       rooms (fst (broadcast sock o message m)) !! o' = rooms m !! o')
  ∧ getRoomClientCount o (fst (broadcast sock o message m)) ≤ getRoomClientCount o m
  ∧ allConnections (fst (broadcast sock o message m)) ⊆ allConnections m.
Proof.
  unfold getRoomCount, getRoomClientCount.
  destruct (broadcast_manager o message m)
    as [[E ->]|(r & r' & E & Hrooms & Hr' & Hall)].
  - repeat split; reflexivity.
  - rewrite Hrooms, E, lookup_insert_eq. split; [|split; [|split]].
    + apply map_size_insert_Some. rewrite E. eexists; reflexivity.
    + intros o' Hne. apply lookup_insert_ne. congruence.
    + apply subseteq_size. intros ws Hin. apply Hr' in Hin. tauto.
    + intros ws Hin. apply Hall in Hin. tauto.
Qed.

(** X18.  With the sockets in the same state, a second [broadcast] to the
    same order leaves the manager as the first one left it. *)
Theorem broadcast_idempotent o message message' m :
  fst (broadcast sock o message' (fst (broadcast sock o message m))) =
  fst (broadcast sock o message m).
Proof.
  destruct (broadcast_manager o message m)
    as [[E Hm]|(r & r' & E & Hrooms & Hr' & Hall)].
  - rewrite Hm. unfold broadcast. rewrite E. reflexivity.
  - set (m1 := fst (broadcast sock o message m)) in *.
    assert (E1 : rooms m1 !! o = Some r') by (rewrite Hrooms; apply lookup_insert_eq).
    destruct (broadcast_manager o message' m1)
      as [[E2 Hm2]|(r1 & r2 & E2 & Hrooms2 & Hr2 & Hall2)]; [exact Hm2|].
    rewrite E1 in E2. injection E2 as <-.
    assert (Heq : r2 = r').
    { apply leibniz_equiv. intros ws. rewrite Hr2, Hr'. tauto. }
    subst r2. apply manager_eq.
    + rewrite Hrooms2. apply insert_id, E1.
    + apply leibniz_equiv. intros ws. rewrite Hall2, Hr'.
      split; [tauto|]. intros H. split; [exact H|].
      intros [[_ Hf] Ht]. congruence.
Qed.

(** X19.  [cleanup] closes every tracked connection exactly once, hence
    every member of every room when room members are tracked, and leaves a
    manager without rooms or connections, on which every [broadcast] is a
    no-op. *)
Theorem cleanup_closes_all m :
  NoDup (snd (cleanup m))
  ∧ (∀ ws, ws ∈ snd (cleanup m) ↔ ws ∈ allConnections m)
  ∧ (rooms_tracked m →
     ∀ o r ws, rooms m !! o = Some r → ws ∈ r → ws ∈ snd (cleanup m))
  ∧ getRoomCount (fst (cleanup m)) = 0
  ∧ getConnectionCount (fst (cleanup m)) = 0
  ∧ (∀ o message, broadcast sock o message (fst (cleanup m)) = (fst (cleanup m), [])).
Proof.
  unfold cleanup. cbn [fst snd]. split; [apply NoDup_elements|].
  split; [intros ws; apply elem_of_elements|].
  split; [intros Hm o r ws H Hin; apply elem_of_elements; eapply Hm; eauto|].
  split; [reflexivity|]. split; [reflexivity|].
  intros o message. unfold broadcast, empty. cbn [rooms].
  rewrite lookup_empty. reflexivity.
Qed.

End MoreBroadcast.

Section MoreWorker.
Import DexRouter RoutingSpec OrderWorker WorkerSpec MoreSpec.

Ltac next_write :=
  match goal with
  | |- context [match ?so with nil => _ | cons _ _ => _ end] =>
      is_var so; destruct so as [|[?|] ?]; cbn
  end.

Ltac run_processOrder job d w :=
  unfold outcome_of, world_of, events_of, processOrder, processOrder_try,
    processOrder_catch, updateOrderStatus,
    try_catch, bind, prisma_order_update, now, wsManager_broadcast, throw, ret;
  destruct (success (swap_of job d)) eqn:?;
  destruct (retries_exhausted job) eqn:?;
  destruct w as [so ? ? ? ?]; cbn;
  repeat next_write.








#[local] Opaque routing_of swap_of WebSocketManager.broadcast update_of.





(** X22.  [processOrder] returns normally exactly when it broadcast a
    [confirmed] message; then the swap succeeded and no [failed] status
    was written or broadcast. *)
Theorem processOrder_resolves_iff_confirmed job d w :
  (outcome_of (processOrder job d w) = Returned tt <->
   existsb (fun m => status_eqb confirmed (fst m))
     (emitted (events_of (processOrder job d w))) = true)
  /\ (outcome_of (processOrder job d w) = Returned tt ->
      success (swap_of job d) = true
      /\ mentions_failed (events_of (processOrder job d w)) = false).
Proof.
  run_processOrder job d w;
    (split; [split; intros H; try discriminate H; reflexivity
            | intros H; try discriminate H; split; reflexivity]).
Qed.

(** X23.  Every store write and every broadcast of [processOrder] is for
    the order of the job. *)
Theorem processOrder_own_order job d w :
  Forall (fun e => event_order e = job_orderId (job_data job))
    (events_of (processOrder job d w)).
Proof.
  run_processOrder job d w; repeat constructor.
Qed.

(** X24.  In every run of [processOrder] each write that the store
    accepted is followed by the broadcast of the same status: the statuses
    written are the statuses broadcast, and there are at most six. *)
Theorem processOrder_broadcasts_every_write job d w :
  persisted_statuses (events_of (processOrder job d w)) =
    map fst (emitted (events_of (processOrder job d w)))
  /\ length (events_of (processOrder job d w)) =
       (2 * length (emitted (events_of (processOrder job d w))))%nat
  /\ (length (emitted (events_of (processOrder job d w))) <= 6)%nat.
Proof.
  run_processOrder job d w; repeat split; cbn; lia.
Qed.

End MoreWorker.

Section Delivery.
Import OrderWorker WorkerSpec MoreSpec.

Variable ws : nat.
Variable o : string.











End Delivery.

Section DeliveryClaims.
Import OrderWorker WorkerSpec MoreSpec.




End DeliveryClaims.

Section Quiet.
Import OrderWorker WorkerSpec MoreSpec.

Variable o : string.






End Quiet.

Section QuietClaims.
Import DexRouter RoutingSpec OrderWorker WorkerSpec MoreSpec.



Lemma length_slice0 (k : nat) (s : string) :
  (String.length (Js.slice0 k s) <= k)%nat.
Proof.
  unfold Js.slice0. revert s. induction k as [|k IH]; intros s.
  - destruct s; cbn; lia.
  - destruct s as [|c s]; cbn; [lia|]. specialize (IH s). lia.
Qed.

Lemma slice0_prefix (k : nat) (s : string) :
  String.prefix (Js.slice0 k s) s = true.
Proof.
  unfold Js.slice0. revert s. induction k as [|k IH]; intros s.
  - destruct s; reflexivity.
  - destruct s as [|c s]; cbn; [reflexivity|].
    destruct (ascii_dec c c); [apply IH | congruence].
Qed.

Lemma slice0_empty (k : nat) (s : string) :
  Js.slice0 (S k) s = EmptyString -> s = EmptyString.
Proof. unfold Js.slice0. destruct s; cbn; [reflexivity | discriminate]. Qed.

(** X10.  [getTokenSymbol] returns a string except at a property name
    inherited from [Object.prototype]; the string has at most eight
    characters, is empty only for the empty address, and for an address
    outside the symbol table is a prefix of the address. *)
Theorem getTokenSymbol_label address :
  (getTokenSymbol address = None <-> Js.inherited address = true)
  /\ forall label, getTokenSymbol address = Some label ->
       (String.length label <= 8)%nat
       /\ (label = EmptyString <-> address = EmptyString)
       /\ (TOKEN_SYMBOLS address = None -> String.prefix label address = true).
Proof.
  unfold getTokenSymbol, TOKEN_SYMBOLS.
  destruct (String.eqb address SOL) eqn:E1;
    [apply String.eqb_eq in E1; subst; vm_compute;
     split; [split; discriminate|]; intros label [= <-];
     repeat split; try lia; discriminate|].
  destruct (String.eqb address USDC) eqn:E2;
    [apply String.eqb_eq in E2; subst; vm_compute;
     split; [split; discriminate|]; intros label [= <-];
     repeat split; try lia; discriminate|].
  destruct (String.eqb address BONK) eqn:E3;
    [apply String.eqb_eq in E3; subst; vm_compute;
     split; [split; discriminate|]; intros label [= <-];
     repeat split; try lia; discriminate|].
  destruct (String.eqb address RAY) eqn:E4;
    [apply String.eqb_eq in E4; subst; vm_compute;
     split; [split; discriminate|]; intros label [= <-];
     repeat split; try lia; discriminate|].
  destruct (Js.inherited address) eqn:Ei.
  - split; [split; reflexivity|]. intros label H. discriminate H.
  - split; [split; discriminate|]. intros label [= <-].
    split; [apply length_slice0|]. split; [|intros _; apply slice0_prefix].
    split; [apply slice0_empty | intros ->; reflexivity].
Qed.

End QuietClaims.

(** ** Further properties of the router in binary64 *)

Section MoreRouting64.
Import RoutingSpec RoutingSpec64.

(** X1.  In binary64 the base exchange rate of a token against itself is
    1, every rate is positive, and the rates of a pair in the two
    directions multiply to 1 up to [2^-52], whether the product is taken
    exactly or as JavaScript computes it. *)
Theorem getBaseExchangeRate64_inverse a b :
  table_key a -> table_key b ->
  DexRouter64.getBaseExchangeRate a a == 1
  /\ 0 < DexRouter64.getBaseExchangeRate a b
  /\ Qabs (DexRouter64.getBaseExchangeRate a b
           * DexRouter64.getBaseExchangeRate b a - 1)
       <= 1 # 4503599627370496
  /\ Qabs (Binary64.mul (DexRouter64.getBaseExchangeRate a b)
             (DexRouter64.getBaseExchangeRate b a) - 1)
       <= 1 # 4503599627370496.
Proof.
  intros _ _.
  unfold DexRouter64.getBaseExchangeRate, BASE_PRICES64, BASE_PRICES. cbv zeta.
  repeat (destruct (String.eqb a _));
    repeat (destruct (String.eqb b _));
    (split; [vm_compute; reflexivity|]);
    (split; [vm_compute; reflexivity|]);
    split; apply Qle_bool_iff; vm_compute; reflexivity.
Qed.

(** X1 at USDC and BONK, whose rates multiply to [1 - 2^-53]. *)
Lemma getBaseExchangeRate64_inverse_witness :
  table_key USDC /\ table_key BONK
  /\ DexRouter64.getBaseExchangeRate USDC USDC == 1
  /\ 0 < DexRouter64.getBaseExchangeRate USDC BONK
  /\ Qabs (DexRouter64.getBaseExchangeRate USDC BONK
           * DexRouter64.getBaseExchangeRate BONK USDC - 1)
       <= 1 # 4503599627370496
  /\ Qabs (Binary64.mul (DexRouter64.getBaseExchangeRate USDC BONK)
             (DexRouter64.getBaseExchangeRate BONK USDC) - 1)
       <= 1 # 4503599627370496.
Proof.
  split; [reflexivity|]. split; [reflexivity|].
  exact (getBaseExchangeRate64_inverse USDC BONK eq_refl eq_refl).
Defined.

(** X2.  In binary64 the base exchange rates compose: the rate from [a] to
    [c] is the product of the rates from [a] to [b] and from [b] to [c], up
    to a relative error of [2^-51], whether the product is taken exactly or
    as JavaScript computes it. *)
Theorem getBaseExchangeRate64_triangle a b c :
  table_key a -> table_key b -> table_key c ->
  Qabs (DexRouter64.getBaseExchangeRate a b * DexRouter64.getBaseExchangeRate b c
        - DexRouter64.getBaseExchangeRate a c)
    <= DexRouter64.getBaseExchangeRate a c * (1 # 2251799813685248)
  /\ Qabs (Binary64.mul (DexRouter64.getBaseExchangeRate a b)
             (DexRouter64.getBaseExchangeRate b c)
           - DexRouter64.getBaseExchangeRate a c)
       <= DexRouter64.getBaseExchangeRate a c * (1 # 2251799813685248).
Proof.
  intros _ _ _.
  unfold DexRouter64.getBaseExchangeRate, BASE_PRICES64, BASE_PRICES. cbv zeta.
  repeat (destruct (String.eqb a _));
    repeat (destruct (String.eqb b _));
    repeat (destruct (String.eqb c _));
    split; apply Qle_bool_iff; vm_compute; reflexivity.
Qed.

(** X2 at SOL, USDC and BONK, where the computed product is
    9999999.999999998 and the rate is 10000000. *)
Lemma getBaseExchangeRate64_triangle_witness :
  table_key SOL /\ table_key USDC /\ table_key BONK
  /\ Qabs (DexRouter64.getBaseExchangeRate SOL USDC
           * DexRouter64.getBaseExchangeRate USDC BONK
           - DexRouter64.getBaseExchangeRate SOL BONK)
       <= DexRouter64.getBaseExchangeRate SOL BONK * (1 # 2251799813685248)
  /\ Qabs (Binary64.mul (DexRouter64.getBaseExchangeRate SOL USDC)
             (DexRouter64.getBaseExchangeRate USDC BONK)
           - DexRouter64.getBaseExchangeRate SOL BONK)
       <= DexRouter64.getBaseExchangeRate SOL BONK * (1 # 2251799813685248).
Proof.
  split; [reflexivity|]. split; [reflexivity|]. split; [reflexivity|].
  exact (getBaseExchangeRate64_triangle SOL USDC BONK eq_refl eq_refl eq_refl).
Defined.

(** X9.  An order of at most 100 is routed on price grounds alone: the
    justification names the best effective price, the selected venue has
    the higher effective price as the router computes it in binary64
    (Raydium when the computed prices are equal), and its exact effective
    price is at least [1 - 2^-50] times the other venue's. *)
Theorem small_order64_gets_best_price tokenIn tokenOut amount dr dm :
  table_key tokenIn -> table_key tokenOut ->
  valid_quote_draws dr -> valid_quote_draws dm ->
  amount <= 100 ->
  let res := DexRouter64.compareAndRoute tokenIn tokenOut amount dr dm in
  on_best_price res = true
  /\ best_price_venue64 (raydiumQuote res) (meteoraQuote res) (selectedDex res)
  /\ (1 - (1 # 1125899906842624)) * other_effective res <= selected_effective res.
Proof.
  intros _ _ (_ & Hr & _) (_ & Hm & _) Ha. cbv zeta.
  rewrite compareAndRoute64_unfold.
  unfold on_best_price, other_effective, selected_effective.
  cbn [selectedDex raydiumQuote meteoraQuote reason].
  pose proof (getRaydiumQuote64_price tokenIn tokenOut amount dr Hr) as [Hpr _].
  pose proof (getMeteorQuote64_price tokenIn tokenOut amount dm Hm) as [Hpm _].
  cbv zeta in Hpr, Hpm.
  set (rq := DexRouter64.getRaydiumQuote tokenIn tokenOut amount dr) in *.
  set (mq := DexRouter64.getMeteorQuote tokenIn tokenOut amount dm) in *.
  assert (E : DexRouter64.selectRoute amount rq mq =
              DexRouter.bestPrice (DexRouter64.effective rq) (DexRouter64.effective mq)).
  { destruct (selectRoute64_cases amount rq mq) as [(H & _)|[(H & _)|E]];
      [lra | lra | exact E]. }
  rewrite E.
  pose proof (bestPrice64_slack rq mq eq_refl eq_refl Hpr Hpm) as Hb.
  unfold DexRouter.bestPrice in *. cbv zeta in *. cbn [fst snd] in *.
  destruct (bestPriceReason_prefix
              (if Js.geb (DexRouter64.effective rq) (DexRouter64.effective mq)
               then Raydium else Meteora)
              (DexRouter64.effective rq) (DexRouter64.effective mq)) as [Hp _].
  split; [exact Hp|].
  destruct (Js.geb (DexRouter64.effective rq) (DexRouter64.effective mq)); exact Hb.
Qed.

Lemma valid_draws_g : valid_quote_draws draws_g.
Proof.
  unfold valid_quote_draws, is_random.
  repeat split; vm_compute; (reflexivity || discriminate).
Defined.
Lemma valid_draws_h : valid_quote_draws draws_h.
Proof.
  unfold valid_quote_draws, is_random.
  repeat split; vm_compute; (reflexivity || discriminate).
Defined.

(** X9 at the order of 1.5 SOL for BONK whose computed effective prices
    are equal. *)
Lemma small_order64_gets_best_price_witness :
  table_key SOL /\ table_key BONK /\
  valid_quote_draws draws_g /\ valid_quote_draws draws_h /\ 1.5 <= 100 /\
  let res := DexRouter64.compareAndRoute SOL BONK 1.5 draws_g draws_h in
  on_best_price res = true
  /\ best_price_venue64 (raydiumQuote res) (meteoraQuote res) (selectedDex res)
  /\ (1 - (1 # 1125899906842624)) * other_effective res <= selected_effective res.
Proof.
  assert (H : 1.5 <= 100) by (vm_compute; discriminate).
  split; [reflexivity|]. split; [reflexivity|].
  split; [exact valid_draws_g|]. split; [exact valid_draws_h|]. split; [exact H|].
  exact (small_order64_gets_best_price SOL BONK 1.5 draws_g draws_h
           eq_refl eq_refl valid_draws_g valid_draws_h H).
Defined.



End MoreRouting64.

